(** * Feast GCP provider ([sdk/python/feast/infra/gcp.py])

    A shallow embedding of the online write/read path over Datastore and of
    the BigQuery point-in-time query builder, with the properties the
    design document states about them.

    Conventions of the embedding:
    - a Python [datetime] is its wall-clock reading in microseconds plus its
      [tzinfo]: none, one that gives a UTC offset, or one whose
      [utcoffset()] is [None];
    - the Datastore client is a finite map from row keys to rows; a read
      inside a transaction returns the row as it was when the transaction
      started, the rows put are held back until the commit, which applies
      them in the order of the puts, and are dropped when the block is left
      by an exception; a datetime property is kept as the instant it denotes
      and handed back as a UTC datetime;
    - the worker pool cuts its tasks into chunks and runs the chunks one
      after the other, in the order of the batches; a task that raises ends
      its chunk;
    - exceptions are values of [exn], carried by the [result] monad;
    - protobuf messages, the entity-key serializer and the mmh3 hash live
      outside this file and are taken through the [Externals] interface;
    - for table administration the store also holds one Table entity per
      feature table; a query with a limit returns the first rows of the
      table in the order of the map, and the requests are taken to succeed. *)

From Stdlib Require Import ZArith NArith Ascii String List Lia DecimalString.
From stdpp Require Import gmap strings list fin_maps.
From Equations.Prop Require Import Equations Logic.

Open Scope Z_scope.

(** ** Bytes and their hexadecimal rendering ([bytes.hex()]) *)

Abbreviation bytes := (list Byte.byte).

Definition hex_digit (n : N) : ascii :=
  match n with
  | 0%N => "0" | 1%N => "1" | 2%N => "2" | 3%N => "3"
  | 4%N => "4" | 5%N => "5" | 6%N => "6" | 7%N => "7"
  | 8%N => "8" | 9%N => "9" | 10%N => "a" | 11%N => "b"
  | 12%N => "c" | 13%N => "d" | 14%N => "e" | _ => "f"
  end%char.

Fixpoint hex (b : bytes) : string :=
  match b with
  | [] => EmptyString
  | x :: rest =>
      String (hex_digit (Byte.to_N x / 16))
        (String (hex_digit (Byte.to_N x mod 16)) (hex rest))
  end.

(** ** Exceptions and the result monad *)

Inductive exn : Type :=
| Conflict                      (* google.api_core.exceptions.Conflict *)
| TypeError                     (* ordering a naive against an aware datetime *)
| DecodeError                   (* protobuf ParseFromString on malformed bytes *)
| ValueError (msg : string)
| AssertionError
| RemoteError (msg : string).   (* any other failure reported by a remote service *)

#[global] Instance exn_eq_dec : EqDecision exn.
Proof. solve_decision. Defined.

Inductive result (A : Type) : Type :=
| Ok (a : A)
| Raise (e : exn).
Arguments Ok {A} a.
Arguments Raise {A} e.

#[global] Instance result_ret : MRet result := fun A a => Ok a.

#[global] Instance result_bind : MBind result := fun A B k r =>
  match r with
  | Ok a => k a
  | Raise e => Raise e
  end.

(** ** datetime *)

(** A [tzinfo] object, as far as a datetime uses it: what it answers to
    [utcoffset()], an offset in microseconds or [None]. *)
Inductive tz : Type :=
| Offset (off : Z)
| NoUtcOffset.

Record datetime : Type := mk_datetime {
  wall : Z;              (* year..microsecond fields, as microseconds *)
  tzinfo : option tz     (* None = no tzinfo attached *)
}.

Definition utc : Z := 0.

(** [datetime.utcoffset()]: [None] without a tzinfo, else what the tzinfo
    answers. *)
Definition utcoffset (t : datetime) : option Z :=
  match tzinfo t with
  | Some (Offset off) => Some off
  | Some NoUtcOffset => None
  | None => None
  end.

(** The instant a datetime denotes, a naive one being read as UTC. *)
Definition instant (t : datetime) : Z :=
  match utcoffset t with
  | Some off => wall t - off
  | None => wall t
  end.

(** Python calls a datetime aware when its [utcoffset()] is not [None]. *)
Definition is_aware (t : datetime) : bool :=
  match utcoffset t with Some _ => true | None => false end.

(** [datetime.replace(tzinfo=tz)]: same fields, new tzinfo. *)
Definition replace_tzinfo (t : datetime) (tz : Z) : datetime :=
  {| wall := wall t; tzinfo := Some (Offset tz) |}.

(** [a > b]: the two [utcoffset()] decide. Naive with naive is ordered by
    the fields, aware with aware by the instant, a mixed pair raises
    TypeError. (Python orders two values that carry the very same tzinfo
    object by their fields; for a tzinfo of fixed offset, as the UTC of a
    stored timestamp is, that is the order of the instants.) *)
Definition dt_gt (a b : datetime) : result bool :=
  match utcoffset a, utcoffset b with
  | None, None => Ok (wall b <? wall a)
  | Some oa, Some ob => Ok (wall b - ob <? wall a - oa)
  | _, _ => Raise TypeError
  end.

(** [a == b]: a mixed pair is unequal, never an error. *)
Definition dt_eq (a b : datetime) : bool :=
  match utcoffset a, utcoffset b with
  | None, None => wall a =? wall b
  | Some oa, Some ob => wall a - oa =? wall b - ob
  | _, _ => false
  end.

(** gcp.py, [_make_tzaware]: "We assume tz-naive datetimes are UTC". The
    test is on [tzinfo], so a value whose tzinfo gives no offset is
    returned as it is. *)
Definition _make_tzaware (t : datetime) : datetime :=
  match tzinfo t with
  | None => replace_tzinfo t utc
  | Some _ => t
  end.

(** ** Feature views and their sources *)

(** A timedelta, in microseconds. *)
Definition timedelta : Type := Z.

(** The integer nearest to [a / b], the even one of two that are equally
    near, for [0 <= a] and [0 < b]. *)
Definition round_half_even (a b : Z) : Z :=
  let q := a / b in
  let r := a mod b in
  if 2 * r <? b then q
  else if b <? 2 * r then q + 1
  else if Z.even q then q else q + 1.

(** Numerator and denominator of [a / b] multiplied by [2 ^ k]. *)
Definition scale_num (a k : Z) : Z := if 0 <=? k then a * 2 ^ k else a.
Definition scale_den (b k : Z) : Z := if 0 <=? k then b else b * 2 ^ (- k).

(** The [e] with [2 ^ e <= a / b < 2 ^ (e + 1)], for positive [a], [b]. *)
Definition quotient_exponent (a b : Z) : Z :=
  let e := Z.log2 a - Z.log2 b in
  if scale_num a (- e) <? scale_den b (- e) then e - 1 else e.

(** [int(a / b)] on Python ints [0 <= a], [0 < b]: [a / b] is the binary64
    float nearest to the quotient (53 significant bits, ties to even), and
    [int] drops its fraction. The quotients of a timedelta stay within the
    normal range of binary64. *)
Definition int_truediv_pos (a b : Z) : Z :=
  if a =? 0 then 0
  else
    let k := 52 - quotient_exponent a b in
    let m := round_half_even (scale_num a k) (scale_den b k) in
    if 0 <=? k then m / 2 ^ k else m * 2 ^ (- k).

(** [int(ttl.total_seconds())]: [total_seconds()] divides the microseconds
    by [10**6] as a float, [int] truncates towards zero. *)
Definition int_total_seconds (d : timedelta) : Z :=
  Z.sgn d * int_truediv_pos (Z.abs d) 1000000.

Record BigQuerySource : Type := {
  bq_table_ref : string;
  bq_event_timestamp_column : string;
  bq_created_timestamp_column : string;
  bq_field_mapping : gmap string string;
  bq_query : string
}.

(** [feast.data_source.DataSource]: the BigQuery kind, or any other kind
    (file, Kafka, Kinesis), of which only the kind's name is kept. *)
Inductive DataSource : Type :=
| SrcBigQuery (src : BigQuerySource)
| SrcOther (kind : string).

Record FeatureView : Type := {
  fv_name : string;
  fv_entities : list string;
  fv_ttl : option timedelta;
  fv_input : DataSource
}.

(** ** External collaborators *)

Class Externals : Type := {
  EntityKeyProto : Type;
  ValueProto : Type;
  (* feast.infra.key_encoding_utils.serialize_entity_key *)
  serialize_entity_key : EntityKeyProto -> bytes;
  (* EntityKeyProto.SerializeToString *)
  EntityKey_SerializeToString : EntityKeyProto -> bytes;
  (* ValueProto.SerializeToString / ParseFromString *)
  Value_SerializeToString : ValueProto -> bytes;
  Value_ParseFromString : bytes -> option ValueProto;
  (* mmh3.hash_bytes *)
  mmh3_hash_bytes : bytes -> bytes;
  (* datetime.__str__ *)
  datetime_str : datetime -> string;
  (* the utcoffset of the system time zone at a wall-clock reading, which
     astimezone() uses for a datetime without utcoffset *)
  local_utcoffset : Z -> Z;
  (* BigQuerySource.get_table_query_string *)
  get_table_query_string : BigQuerySource -> string;
  (* feast.infra.provider._get_requested_feature_views_to_features_dict,
     as the item list of the dict it returns *)
  _get_requested_feature_views_to_features_dict :
    list string -> list FeatureView -> result (list (FeatureView * list string))
}.

(** ** Minibatch splitting *)

(** [itertools.islice(iterable, n)] on a one-pass iterator: the items taken
    and the iterator that remains. *)
Definition islice {A} (iterable : list A) (n : nat) : list A * list A :=
  (take n iterable, drop n iterable).

(** gcp.py, [_to_minibatches]: the batches the generator yields, in order,
    from the iterator state [iterable]. *)
Equations? _to_minibatches_from {A} (batch_size : nat) (iterable : list A)
  : list (list A) by wf (length iterable) lt :=
  _to_minibatches_from batch_size iterable
    with inspect (islice iterable batch_size) := {
    | exist _ (nil, _) _ => nil
    | exist _ (cons x batch, iterable') Hb =>
        cons (cons x batch) (_to_minibatches_from batch_size iterable') }.
Proof.
  rewrite length_drop.
  destruct batch_size, iterable; simpl in *; try discriminate; lia.
Qed.

Definition _to_minibatches {A} (data : list A) : list (list A) :=
  _to_minibatches_from 50 data.

(** ** The online store *)

(** [client.key("Project", project, "Table", table.name, "Row", document_id)] *)
Definition RowKey : Type := (string * string * string)%type.

(** A Datastore entity of kind Row, with the four properties the write path
    sets. *)
Record StoredRow : Type := {
  key : bytes;
  values : gmap string bytes;
  event_ts : datetime;
  created_ts : option datetime
}.

(** What the store does to one transaction: nothing special, an error
    raised by the [client.get] of the record with index [i], or an error
    raised when the transaction commits. *)
Inductive fault : Type :=
| NoFault
| GetFails (i : nat) (e : exn)
| CommitFails (e : exn).

Inductive txn_outcome : Type :=
| Committed (rows : nat)
| Aborted (e : exn).

(** The world the provider acts on: the rows stored, the arguments the
    progress callback was called with (oldest first), the behaviour of the
    store in the transactions still to come (one entry per transaction,
    [NoFault] once the list is used up), and the outcome of every
    transaction opened so far (oldest first). *)
Record world : Type := {
  store : gmap RowKey StoredRow;
  progress_log : list Z;
  faults : list fault;
  txn_log : list txn_outcome
}.

Definition get_fault (f : fault) (i : nat) : option exn :=
  match f with
  | GetFails j e => if Nat.eqb i j then Some e else None
  | _ => None
  end.

Definition commit_fault (f : fault) : option exn :=
  match f with
  | CommitFails e => Some e
  | _ => None
  end.

Section Online.
Context `{Ext : Externals}.

Definition WriteRecord : Type :=
  (EntityKeyProto * gmap string ValueProto * datetime * option datetime)%type.

(** gcp.py, [compute_datastore_entity_id] *)
Definition compute_datastore_entity_id (entity_key : EntityKeyProto) : string :=
  hex (mmh3_hash_bytes (serialize_entity_key entity_key)).

(** The two [continue] tests of [_write_minibatch] on an entity that exists:
    [true] when the record is skipped. *)
Definition is_stale (entity : StoredRow) (timestamp : datetime)
    (created : option datetime) : result bool :=
  fresher ← dt_gt (event_ts entity) (_make_tzaware timestamp);
  if (fresher : bool) then Ok true
  else if dt_eq (event_ts entity) (_make_tzaware timestamp) then
    match created, created_ts entity with
    | Some c, Some ec => dt_gt ec (_make_tzaware c)
    | _, _ => Ok false
    end
  else Ok false.

(** The dict passed to [entity.update]. *)
Definition updated_row (rec : WriteRecord) : StoredRow :=
  let '(entity_key, features, timestamp, created) := rec in
  {| key := EntityKey_SerializeToString entity_key;
     values := Value_SerializeToString <$> features;
     event_ts := _make_tzaware timestamp;
     created_ts := _make_tzaware <$> created |}.

Inductive write_action : Type :=
| Skip
| Upsert (row : StoredRow).

(** One iteration of the loop over the records, given what [client.get]
    returned. *)
Definition write_record (entity : option StoredRow) (rec : WriteRecord)
    : result write_action :=
  let '(entity_key, features, timestamp, created) := rec in
  match entity with
  | Some e =>
      stale ← is_stale e timestamp created;
      if (stale : bool) then Ok Skip else Ok (Upsert (updated_row rec))
  | None => Ok (Upsert (updated_row rec))
  end.

Definition row_key (project table_name : string) (rec : WriteRecord) : RowKey :=
  (project, table_name, compute_datastore_entity_id rec.1.1.1).

(** What Datastore keeps of a datetime property, as a read hands it back:
    the instant, as a UTC datetime. The client attaches UTC to a value
    without tzinfo and converts with [astimezone(utc)], which reads a value
    that has a tzinfo but no utcoffset as local time. *)
Definition persist_datetime (t : datetime) : datetime :=
  match tzinfo t with
  | None => replace_tzinfo t utc
  | Some (Offset off) => {| wall := wall t - off; tzinfo := Some (Offset utc) |}
  | Some NoUtcOffset =>
      {| wall := wall t - local_utcoffset (wall t);
         tzinfo := Some (Offset utc) |}
  end.

(** An entity as the store holds it once it is put. *)
Definition persist (row : StoredRow) : StoredRow :=
  {| key := key row;
     values := values row;
     event_ts := persist_datetime (event_ts row);
     created_ts := persist_datetime <$> created_ts row |}.

(** The body of [with client.transaction():] from the record with index [i]
    on. [snapshot] holds the rows as they were when the transaction started,
    which is what [client.get] reads; [puts] are the entities handed to
    [client.put] so far, oldest first. Calls to the progress callback are
    made as the loop runs, so the log is returned whether or not the body
    raises. *)
Fixpoint txn_body (project table_name : string) (progress : bool) (f : fault)
    (i : nat) (data : list WriteRecord) (snapshot : gmap RowKey StoredRow)
    (puts : list (RowKey * StoredRow)) (log : list Z) (row_count : nat)
    : list Z * result (list (RowKey * StoredRow) * nat) :=
  match data with
  | [] => (log, Ok (puts, row_count))
  | rec :: rest =>
      match get_fault f i with
      | Some e => (log, Raise e)
      | None =>
          match write_record (snapshot !! row_key project table_name rec) rec with
          | Raise e => (log, Raise e)
          | Ok Skip =>
              txn_body project table_name progress f (S i) rest snapshot puts
                log row_count
          | Ok (Upsert row) =>
              txn_body project table_name progress f (S i) rest snapshot
                (puts ++ [(row_key project table_name rec, row)])
                (if progress then log ++ [1] else log)
                (S row_count)
          end
      end
  end.

(** The commit: the entities put are written in the order of the puts, so
    of two puts under one key the later one stays. *)
Definition commit_puts (puts : list (RowKey * StoredRow))
    (st : gmap RowKey StoredRow) : gmap RowKey StoredRow :=
  foldl (fun m put => <[put.1 := persist put.2]> m) st puts.

(** One pass through the [try] block: open a transaction, run the body,
    commit. Leaving the block by an exception rolls the transaction back. *)
Definition attempt (project table_name : string) (progress : bool)
    (data : list WriteRecord) (w : world) : world * result nat :=
  let f := hd NoFault (faults w) in
  let '(log, r) :=
    txn_body project table_name progress f 0 data (store w) []
      (progress_log w) 0 in
  let aborted e :=
    ({| store := store w; progress_log := log; faults := tl (faults w);
        txn_log := txn_log w ++ [Aborted e] |}, Raise e) in
  match r with
  | Raise e => aborted e
  | Ok (puts, row_count) =>
      match commit_fault f with
      | Some e => aborted e
      | None =>
          ({| store := commit_puts puts (store w); progress_log := log;
              faults := tl (faults w);
              txn_log := txn_log w ++ [Committed row_count] |}, Ok row_count)
      end
  end.

Definition num_retries_on_conflict : nat := 3.

(** [for retry_number in range(...): try: ... break / except Conflict: ...] *)
Fixpoint retry_loop (project table_name : string) (progress : bool)
    (data : list WriteRecord) (range : list nat) (w : world)
    : world * result unit :=
  match range with
  | [] => (w, Ok ())
  | retry_number :: range' =>
      match attempt project table_name progress data w with
      | (w', Ok _) => (w', Ok ())
      | (w', Raise Conflict) =>
          if Nat.eqb retry_number (num_retries_on_conflict - 1)
          then (w', Raise Conflict)
          else retry_loop project table_name progress data range' w'
      | (w', Raise e) => (w', Raise e)
      end
  end.

(** gcp.py, [_write_minibatch] *)
Definition _write_minibatch (project table_name : string)
    (data : list WriteRecord) (progress : bool) (w : world)
    : world * result unit :=
  retry_loop project table_name progress data
    (seq 0 num_retries_on_conflict) w.

(** [ThreadPool(processes=10)] *)
Definition pool_processes : nat := 10.

(** The chunk size [pool.map] picks for [n] tasks:
    [chunksize, extra = divmod(n, len(pool) * 4)], one more if [extra]. *)
Definition pool_chunksize (n : nat) : nat :=
  let chunksize := (n / (pool_processes * 4))%nat in
  if Nat.eqb (n mod (pool_processes * 4)) 0 then chunksize else S chunksize.

(** One chunk in a worker, [list(map(f, chunk))]: the tasks run in order,
    and the first that raises ends the chunk with its exception. *)
Fixpoint mapstar {B} (f : B -> world -> world * result unit)
    (chunk : list B) (w : world) : world * result unit :=
  match chunk with
  | [] => (w, Ok ())
  | b :: rest =>
      match f b w with
      | (w1, Ok _) => mapstar f rest w1
      | (w1, Raise e) => (w1, Raise e)
      end
  end.

(** The chunks, run one after the other; every chunk runs, whatever became
    of the ones before it. *)
Fixpoint run_chunks {B} (f : B -> world -> world * result unit)
    (chunks : list (list B)) (w : world) : world * list (result unit) :=
  match chunks with
  | [] => (w, [])
  | chunk :: rest =>
      let '(w1, r) := mapstar f chunk w in
      let '(w2, rs) := run_chunks f rest w1 in
      (w2, r :: rs)
  end.

(** [pool.map(f, tasks)]: the tasks are cut into chunks as [islice] cuts
    them, and each chunk's outcome is kept. *)
Definition pool_map {B} (f : B -> world -> world * result unit)
    (tasks : list B) (w : world) : world * list (result unit) :=
  run_chunks f (_to_minibatches_from (pool_chunksize (length tasks)) tasks) w.

(** [pool.map] raises the exception of a failed chunk, if there is one. *)
Fixpoint first_error (rs : list (result unit)) : result unit :=
  match rs with
  | [] => Ok ()
  | Ok _ :: rest => first_error rest
  | Raise e :: _ => Raise e
  end.

(** gcp.py, [Gcp.online_write_batch] *)
Definition online_write_batch (project table_name : string)
    (data : list WriteRecord) (progress : bool) (w : world)
    : world * result unit :=
  let '(w', rs) :=
    pool_map (fun b => _write_minibatch project table_name b progress)
             (_to_minibatches data) w in
  (w', first_error rs).

(** The loop over [value["values"].items()] in [online_read]. *)
Fixpoint parse_items (items : list (string * bytes))
    (res : gmap string ValueProto) : result (gmap string ValueProto) :=
  match items with
  | [] => Ok res
  | (feature_name, value_bin) :: rest =>
      match Value_ParseFromString value_bin with
      | None => Raise DecodeError
      | Some val => parse_items rest (<[feature_name := val]> res)
      end
  end.

Definition ReadResult : Type :=
  (option datetime * option (gmap string ValueProto))%type.

Fixpoint online_read_loop (st : gmap RowKey StoredRow)
    (project table_name : string) (entity_keys : list EntityKeyProto)
    (acc : list ReadResult) : result (list ReadResult) :=
  match entity_keys with
  | [] => Ok acc
  | entity_key :: rest =>
      let document_id := compute_datastore_entity_id entity_key in
      match st !! (project, table_name, document_id) with
      | Some value =>
          res ← parse_items (map_to_list (values value)) ∅;
          online_read_loop st project table_name rest
            (acc ++ [(Some (event_ts value), Some res)])
      | None =>
          online_read_loop st project table_name rest (acc ++ [(None, None)])
      end
  end.

(** gcp.py, [Gcp.online_read] *)
Definition online_read (st : gmap RowKey StoredRow)
    (project table_name : string) (entity_keys : list EntityKeyProto)
    : result (list ReadResult) :=
  online_read_loop st project table_name entity_keys [].

End Online.

(** ** The point-in-time query *)

(** gcp.py, [FeatureViewQueryContext] *)
Record FeatureViewQueryContext : Type := {
  name : string;
  ttl : Z;
  entities : list string;
  features : list string;
  table_ref : string;
  event_timestamp_column : string;
  created_timestamp_column : string;
  field_mapping : gmap string string;
  query : string;
  table_subquery : string
}.

(** [str] of a Python int. *)
Definition str_int (n : Z) : string := NilZero.string_of_int (Z.to_int n).

(** A Jinja [for] block: the body is rendered once per item, and is told
    whether the item is the last one ([loop.last]). *)
Fixpoint jinja_for {A} (body : A -> bool -> string) (items : list A) : string :=
  match items with
  | [] => ""
  | x :: rest =>
      body x (match rest with [] => true | _ => false end)
      +:+ jinja_for body rest
  end.

(** [{% if loop.last %}{% else %}, {% endif %}] *)
Definition unless_last (last : bool) : string := if last then "" else ", ".

Section Query.
Context `{Ext : Externals}.
Variables (min_timestamp max_timestamp : datetime).

(** [{{ featureview.entities | join(', ') }}] *)
Definition join_entities (featureview : FeatureViewQueryContext) : string :=
  String.concat ", " (entities featureview).

(** Template lines 483 and 526, the [{% if featureview.ttl == 0 %}] block. *)
Definition ttl_source_bound (featureview : FeatureViewQueryContext) : string :=
  if ttl featureview =? 0 then ""
  else "AND " +:+ event_timestamp_column featureview
       +:+ " >= Timestamp_sub(TIMESTAMP '" +:+ datetime_str min_timestamp
       +:+ "', interval " +:+ str_int (ttl featureview) +:+ " second)".

(** Template lines 482-483 and 525-526: the rows read from the source. *)
Definition source_rows (featureview : FeatureViewQueryContext) : string :=
  "FROM " +:+ table_subquery featureview +:+ " WHERE "
  +:+ event_timestamp_column featureview +:+ " <= '"
  +:+ datetime_str max_timestamp +:+ "'
" +:+ ttl_source_bound featureview.

(** Template line 500, the [{% if featureview.ttl == 0 %}] block. *)
Definition ttl_validity_bound (featureview : FeatureViewQueryContext) : string :=
  if ttl featureview =? 0 then ""
  else "AND Timestamp_sub(event_timestamp, interval "
       +:+ str_int (ttl featureview) +:+ " second) < "
       +:+ name featureview +:+ "_feature_timestamp".

(** Template line 500: the condition of the [IF]. *)
Definition validity_test (featureview : FeatureViewQueryContext) : string :=
  "event_timestamp >= " +:+ name featureview +:+ "_feature_timestamp "
  +:+ ttl_validity_bound featureview.

(** Template line 500: one output column. *)
Definition feature_if (featureview : FeatureViewQueryContext)
    (feature : string) : string :=
  "IF(" +:+ validity_test featureview +:+ ", "
  +:+ name featureview +:+ "__" +:+ feature +:+ ", NULL) as "
  +:+ name featureview +:+ "__" +:+ feature.

(** Template lines 452-484. *)
Definition union_features (featureview : FeatureViewQueryContext) : string :=
  "
/*
 This query template performs the point-in-time correctness join for a single feature set table
 to the provided entity table.
 1. Concatenate the timestamp and entities from the feature set table with the entity dataset.
 Feature values are joined to this table later for improved efficiency.
 featureview_timestamp is equal to null in rows from the entity dataset.
 */
" +:+ name featureview +:+ "__union_features AS (
SELECT
  -- unique identifier for each row in the entity dataset.
  row_number,
  -- event_timestamp contains the timestamps to join onto
  event_timestamp,
  -- the feature_timestamp, i.e. the latest occurrence of the requested feature relative to the entity_dataset timestamp
  NULL as " +:+ name featureview +:+ "_feature_timestamp,
  -- created timestamp of the feature at the corresponding feature_timestamp
  NULL as created_timestamp,
  -- select only entities belonging to this feature set
  " +:+ join_entities featureview +:+ ",
  -- boolean for filtering the dataset later
  true AS is_entity_table
FROM entity_dataframe
UNION ALL
SELECT
  NULL as row_number,
  " +:+ event_timestamp_column featureview +:+ " as event_timestamp,
  " +:+ event_timestamp_column featureview +:+ " as "
  +:+ name featureview +:+ "_feature_timestamp,
  " +:+ created_timestamp_column featureview +:+ " as created_timestamp,
  " +:+ join_entities featureview +:+ ",
  false AS is_entity_table
" +:+ source_rows featureview +:+ "
),
".

(** Template lines 485-529. *)
Definition joined (featureview : FeatureViewQueryContext) : string :=
  "/*
 2. Window the data in the unioned dataset, partitioning by entity and ordering by event_timestamp, as
 well as is_entity_table.
 Within each window, back-fill the feature_timestamp - as a result of this, the null feature_timestamps
 in the rows from the entity table should now contain the latest timestamps relative to the row's
 event_timestamp.
 For rows where event_timestamp(provided datetime) - feature_timestamp > max age, set the
 feature_timestamp to null.
 */
" +:+ name featureview +:+ "__joined AS (
SELECT
  row_number,
  event_timestamp,
  " +:+ join_entities featureview +:+ ",
  " +:+ jinja_for (fun feature last => "
  " +:+ feature_if featureview feature +:+ unless_last last +:+ "
  ") (features featureview) +:+ "
FROM (
SELECT
  row_number,
  event_timestamp,
  " +:+ join_entities featureview +:+ ",
  FIRST_VALUE(created_timestamp IGNORE NULLS) over w AS created_timestamp,
  FIRST_VALUE(" +:+ name featureview +:+ "_feature_timestamp IGNORE NULLS) over w AS "
  +:+ name featureview +:+ "_feature_timestamp,
  is_entity_table
FROM " +:+ name featureview +:+ "__union_features
WINDOW w AS (PARTITION BY " +:+ join_entities featureview
  +:+ " ORDER BY event_timestamp DESC, is_entity_table DESC, created_timestamp DESC ROWS BETWEEN CURRENT ROW AND UNBOUNDED FOLLOWING)
)
/*
 3. Select only the rows from the entity table, and join the features from the original feature set table
 to the dataset using the entity values, feature_timestamp, and created_timestamps.
 */
LEFT JOIN (
SELECT
  " +:+ event_timestamp_column featureview +:+ " as "
  +:+ name featureview +:+ "_feature_timestamp,
  " +:+ created_timestamp_column featureview +:+ " as created_timestamp,
  " +:+ join_entities featureview +:+ ",
  " +:+ jinja_for (fun feature last => "
  " +:+ feature +:+ " as " +:+ name featureview +:+ "__" +:+ feature
  +:+ unless_last last +:+ "
  ") (features featureview) +:+ "
" +:+ source_rows featureview +:+ "
) USING (" +:+ name featureview +:+ "_feature_timestamp, created_timestamp, "
  +:+ join_entities featureview +:+ ")
WHERE is_entity_table
),
".

(** Template lines 530-540. *)
Definition deduped (featureview : FeatureViewQueryContext) (last : bool) : string :=
  "/*
 4. Finally, deduplicate the rows by selecting the first occurrence of each entity table row_number.
 */
" +:+ name featureview +:+ "__deduped AS (SELECT
  k.*
FROM (
  SELECT ARRAY_AGG(row LIMIT 1)[OFFSET(0)] k
  FROM " +:+ name featureview +:+ "__joined row
  GROUP BY row_number
))" +:+ unless_last last +:+ "

".

(** Template lines 547-554. *)
Definition final_join (featureview : FeatureViewQueryContext) : string :=
  "
LEFT JOIN (
    SELECT
    row_number,
    " +:+ jinja_for (fun feature last => "
    " +:+ name featureview +:+ "__" +:+ feature +:+ unless_last last +:+ "
    ") (features featureview) +:+ "
    FROM " +:+ name featureview +:+ "__deduped
) USING (row_number)
".

(** The body of the first [{% for featureview in featureviews %}]. *)
Definition featureview_block (featureview : FeatureViewQueryContext)
    (last : bool) : string :=
  union_features featureview +:+ joined featureview +:+ deduped featureview last.

(** gcp.py, [build_point_in_time_query]: the rendering of
    [SINGLE_FEATURE_VIEW_POINT_IN_TIME_JOIN]. *)
Definition build_point_in_time_query
    (feature_view_query_contexts : list FeatureViewQueryContext)
    (left_table_query_string : string) : string :=
  "
WITH entity_dataframe AS (
    SELECT ROW_NUMBER() OVER() AS row_number, edf.* FROM "
  +:+ left_table_query_string +:+ " as edf
),
" +:+ jinja_for featureview_block feature_view_query_contexts +:+ "
/*
 Joins the outputs of multiple time travel joins to a single table.
 */
SELECT edf.event_timestamp as event_timestamp, * EXCEPT (row_number, event_timestamp) FROM entity_dataframe edf
" +:+ jinja_for (fun featureview _ => final_join featureview)
        feature_view_query_contexts +:+ "
ORDER BY event_timestamp".

End Query.

(** ** Historical retrieval *)

(** A pandas DataFrame, as far as this file looks into it. *)
Record DataFrame : Type := {
  df_columns : list string;
  df_rows : list (list string)
}.

(** The [entity_df] argument, by its run-time type. *)
Inductive entity_df_arg : Type :=
| EntityDfStr (sql : string)
| EntityDfPandas (df : DataFrame)
| EntityDfOther (type_repr : string).

(** Requests sent to BigQuery. *)
Inductive remote_call : Type :=
| CreateDataset (dataset : string)
| LoadTableFromDataframe (table_id : string) (df : DataFrame)
| JobResult (table_id : string)
| GetTable (table_id : string)
| UpdateTable (table_id : string) (expires : datetime).

(** What the process reads from its surroundings. *)
Record environment : Type := {
  client_project : string;   (* bigquery.Client().project *)
  time_time : Z;             (* int(time.time()) *)
  utcnow : datetime;         (* datetime.utcnow() *)
  now_first : datetime;      (* the two calls of datetime.now() *)
  now_second : datetime
}.

(** [datetime + timedelta] *)
Definition dt_add (t : datetime) (d : timedelta) : datetime :=
  {| wall := wall t + d; tzinfo := tzinfo t |}.

Definition days (n : Z) : timedelta := n * 86400000000.
Definition minutes (n : Z) : timedelta := n * 60000000.

(** gcp.py, [BigQueryRetrievalJob] *)
Record BigQueryRetrievalJob : Type := { job_query : string }.

Section Historical.
Context `{Ext : Externals}.

(** gcp.py, [_upload_entity_df_into_bigquery]: the requests it sends and the
    table reference it returns. *)
Definition _upload_entity_df_into_bigquery (env : environment)
    (project : string) (entity_df : DataFrame) : list remote_call * string :=
  let dataset := client_project env +:+ ".feast_" +:+ project in
  let table_id :=
    client_project env +:+ ".feast_" +:+ project +:+ ".entity_df_"
    +:+ str_int (time_time env) in
  ([CreateDataset dataset;
    LoadTableFromDataframe table_id entity_df;
    JobResult table_id;
    GetTable table_id;
    UpdateTable table_id (dt_add (utcnow env) (minutes 30))],
   table_id).

(** The loop of [get_feature_view_query_context]. *)
Fixpoint query_context_loop (items : list (FeatureView * list string))
    (query_context : list FeatureViewQueryContext)
    : result (list FeatureViewQueryContext) :=
  match items with
  | [] => Ok query_context
  | (feature_view, feats) :: rest =>
      let entity_names := fv_entities feature_view in
      let ttl_seconds :=
        match fv_ttl feature_view with
        | Some d => int_total_seconds d
        | None => 0
        end in
      match fv_input feature_view with
      | SrcBigQuery input =>
          let context :=
            {| name := fv_name feature_view;
               ttl := ttl_seconds;
               entities := entity_names;
               features := feats;
               table_ref := bq_table_ref input;
               event_timestamp_column := bq_event_timestamp_column input;
               created_timestamp_column := bq_created_timestamp_column input;
               field_mapping := bq_field_mapping input;
               query := bq_query input;
               table_subquery := get_table_query_string input |} in
          query_context_loop rest (query_context ++ [context])
      | SrcOther _ => Raise AssertionError
      end
  end.

(** gcp.py, [get_feature_view_query_context] *)
Definition get_feature_view_query_context (feature_refs : list string)
    (feature_views : list FeatureView) : result (list FeatureViewQueryContext) :=
  feature_views_to_feature_map ←
    _get_requested_feature_views_to_features_dict feature_refs feature_views;
  query_context_loop feature_views_to_feature_map [].

Definition entity_df_error (type_repr : string) : exn :=
  ValueError
    ("The entity dataframe you have provided must be a Pandas DataFrame or BigQuery SQL query, but we found: "
     +:+ type_repr +:+ " ").

(** gcp.py, [Gcp.get_historical_features]: the requests sent to BigQuery,
    in order, and the job returned or the exception raised. *)
Definition get_historical_features (env : environment) (config_project : string)
    (feature_views : list FeatureView) (feature_refs : list string)
    (entity_df : entity_df_arg)
    : list remote_call * result BigQueryRetrievalJob :=
  let continue (calls : list remote_call) (entity_df_sql_table : string) :=
    (calls,
     query_context ← get_feature_view_query_context feature_refs feature_views;
     Ok {| job_query :=
             build_point_in_time_query
               (dt_add (now_first env) (- days 365))
               (dt_add (now_second env) (days 1))
               query_context entity_df_sql_table |}) in
  match entity_df with
  | EntityDfStr sql => continue [] ("(" +:+ sql +:+ ")")
  | EntityDfPandas df =>
      let '(calls, table_id) :=
        _upload_entity_df_into_bigquery env config_project df in
      continue calls ("`" +:+ table_id +:+ "`")
  | EntityDfOther type_repr => ([], Raise (entity_df_error type_repr))
  end.

End Historical.

(** ** Predicates used by the statements *)

(** A stored row as the store hands it back: aware timestamps. *)
Definition row_wf (r : StoredRow) : Prop :=
  is_aware (event_ts r) = true ∧
  ∀ c, created_ts r = Some c → is_aware c = true.

(** The condition under which the design skips a record, on instants, with
    a naive incoming timestamp read as UTC. *)
Definition stale_cond (e : StoredRow) (timestamp : datetime)
    (created : option datetime) : Prop :=
  instant timestamp < instant (event_ts e) ∨
  (instant (event_ts e) = instant timestamp ∧
   ∃ c ec, created = Some c ∧ created_ts e = Some ec ∧ instant c < instant ec).

(** No row is lost and no row's event time goes back. *)
Definition store_le (st st' : gmap RowKey StoredRow) : Prop :=
  ∀ k r, st !! k = Some r →
    ∃ r', st' !! k = Some r' ∧ instant (event_ts r) <= instant (event_ts r').

(** The UTC normalization of a timestamp as the design document words it:
    the same instant read on the UTC clock, a naive value being taken as
    one that is in UTC already. *)
Definition utc_normalization (t : datetime) : datetime :=
  {| wall := instant t; tzinfo := Some (Offset utc) |}.

(** A timestamp with no tzinfo, or with one that gives an offset: naive or
    aware in the usual way. *)
Definition plain_or_aware (t : datetime) : bool :=
  match tzinfo t with
  | Some NoUtcOffset => false
  | _ => true
  end.

#[global] Instance stale_cond_dec e timestamp created :
  Decision (stale_cond e timestamp created).
Proof.
  unfold stale_cond.
  destruct created as [c|], (created_ts e) as [ec|].
  - destruct (decide (instant timestamp < instant (event_ts e))) as [|H1];
      [left; by left|].
    destruct (decide (instant (event_ts e) = instant timestamp)) as [H2|H2].
    + destruct (decide (instant c < instant ec)) as [H3|H3].
      * left. right. split; [done|]. by exists c, ec.
      * right. intros [?|[_ (c' & ec' & [= <-] & [= <-] & ?)]]; done.
    + right. intros [?|[? _]]; done.
  - destruct (decide (instant timestamp < instant (event_ts e))) as [|H1];
      [left; by left|].
    right. intros [?|[_ (c' & ec' & _ & ? & _)]]; done.
  - destruct (decide (instant timestamp < instant (event_ts e))) as [|H1];
      [left; by left|].
    right. intros [?|[_ (c' & ec' & ? & _)]]; done.
  - destruct (decide (instant timestamp < instant (event_ts e))) as [|H1];
      [left; by left|].
    right. intros [?|[_ (c' & ec' & ? & _)]]; done.
Defined.

(** [s] occurs in [t]. *)
Definition occurs_in (s t : string) : Prop :=
  ∃ pre post, t = pre +:+ s +:+ post.

Section Predicates.
Context `{Ext : Externals}.

(** A row of [st'] that is either a row of [st] or the row kept for one
    of the records of [data]. *)
Definition from_records (project table_name : string) (data : list WriteRecord)
    (st st' : gmap RowKey StoredRow) : Prop :=
  ∀ k row, st' !! k = Some row →
    st !! k = Some row ∨
    ∃ rec, rec ∈ data ∧ k = row_key project table_name rec ∧
           row = persist (updated_row rec).

(** The two timestamps of a record are naive or aware in the usual way. *)
Definition record_plain_or_aware (rec : WriteRecord) : bool :=
  plain_or_aware rec.1.2 &&
  match rec.2 with
  | Some c => plain_or_aware c
  | None => true
  end.

(** The row the design document has an upsert store: the incoming key
    bytes, the serialized feature map and the UTC normalization of the two
    timestamps. *)
Definition incoming_values (rec : WriteRecord) : StoredRow :=
  {| key := EntityKey_SerializeToString rec.1.1.1;
     values := Value_SerializeToString <$> rec.1.1.2;
     event_ts := utc_normalization rec.1.2;
     created_ts := utc_normalization <$> rec.2 |}.

(** The design's condition for skipping a record, against the rows of
    [st]. *)
Definition skipped (project table_name : string) (st : gmap RowKey StoredRow)
    (rec : WriteRecord) : Prop :=
  match st !! row_key project table_name rec with
  | Some e => stale_cond e rec.1.2 rec.2
  | None => False
  end.

#[global] Instance skipped_dec project table_name st rec :
  Decision (skipped project table_name st rec).
Proof.
  unfold skipped.
  destruct (st !! row_key project table_name rec); apply _.
Defined.

(** The records of [data] that are not skipped against the rows of [st]. *)
Definition not_skipped (project table_name : string)
    (st : gmap RowKey StoredRow) (data : list WriteRecord) : list WriteRecord :=
  filter (fun rec => ¬ skipped project table_name st rec) data.

(** The last record of [data] under the key [k]. *)
Definition last_for (project table_name : string) (k : RowKey)
    (data : list WriteRecord) : option WriteRecord :=
  last (filter (fun rec => row_key project table_name rec = k) data).

(** The entities put for a list of records. *)
Definition puts_of (project table_name : string) (data : list WriteRecord)
    : list (RowKey * StoredRow) :=
  (fun rec => (row_key project table_name rec, updated_row rec)) <$> data.

(** What [online_read] answers for one key. *)
Definition read_answer (st : gmap RowKey StoredRow) (project table_name : string)
    (entity_key : EntityKeyProto) (answer : ReadResult) : Prop :=
  match st !! (project, table_name, compute_datastore_entity_id entity_key) with
  | None => answer = (None, None)
  | Some row =>
      ∃ res, answer = (Some (event_ts row), Some res) ∧
        ∀ feature_name,
          res !! feature_name
            = values row !! feature_name ≫= Value_ParseFromString
  end.

(** Every value stored can be decoded. *)
Definition decodable (st : gmap RowKey StoredRow) : Prop :=
  ∀ k row feature_name value_bin,
    st !! k = Some row → values row !! feature_name = Some value_bin →
    is_Some (Value_ParseFromString value_bin).

End Predicates.

(** ** A small instantiation, to run the definitions on concrete inputs *)

Definition sample_hash (b : bytes) : bytes :=
  take 16 (b ++ replicate 16 Byte.x00).

#[local] Instance sample_externals : Externals := {|
  EntityKeyProto := bytes;
  ValueProto := bytes;
  serialize_entity_key := fun k => k;
  EntityKey_SerializeToString := fun k => k;
  Value_SerializeToString := fun v => v;
  Value_ParseFromString := fun b => Some b;
  mmh3_hash_bytes := sample_hash;
  datetime_str := fun t => str_int (wall t);
  local_utcoffset := fun _ => 3600000000;
  get_table_query_string := fun src => "`" +:+ bq_table_ref src +:+ "`";
  _get_requested_feature_views_to_features_dict :=
    fun refs views => Ok (map (fun v => (v, refs)) views)
|}.

Definition sample_record (ts : Z) (tz : option Z) : @WriteRecord sample_externals :=
  ([Byte.x01], ∅, {| wall := ts; tzinfo := Offset <$> tz |}, None).

Definition empty_world (fs : list fault) : world :=
  {| store := ∅; progress_log := []; faults := fs; txn_log := [] |}.

(** Inputs the examples below are run on. *)
Definition record_utc_plus_2 : @WriteRecord sample_externals :=
  sample_record 7200000000 (Some 7200000000).

Definition record_naive : @WriteRecord sample_externals := sample_record 5 None.

Definition record_fresh : @WriteRecord sample_externals :=
  sample_record 200 (Some 0).

Definition record_old : @WriteRecord sample_externals := sample_record 100 None.

Definition sample_keys : list (@EntityKeyProto sample_externals) :=
  [[Byte.x01]; [Byte.x02]].

(** A store holding the row of one record. *)
Definition store_of (rec : @WriteRecord sample_externals)
    : gmap RowKey StoredRow :=
  {[ row_key "p" "t" rec := persist (updated_row rec) ]}.

(** The world of a store that holds the rows [st] and raises nothing. *)
Definition world_of (st : gmap RowKey StoredRow) : world :=
  {| store := st; progress_log := []; faults := []; txn_log := [] |}.

(** No rows, no callback made yet, and a store that reports a conflict at
    the first commit. *)
Definition world_conflict_once : world := empty_world [CommitFails Conflict].

Definition sample_context (ttl_seconds : Z) : FeatureViewQueryContext :=
  {| name := "driver_stats";
     ttl := ttl_seconds;
     entities := ["driver_id"; "zone"];
     features := ["rating"; "trips"];
     table_ref := "proj.ds.driver_stats";
     event_timestamp_column := "ts";
     created_timestamp_column := "created";
     field_mapping := ∅;
     query := "";
     table_subquery := "`proj.ds.driver_stats`" |}.

Definition file_view : FeatureView :=
  {| fv_name := "driver_stats";
     fv_entities := ["driver_id"];
     fv_ttl := None;
     fv_input := SrcOther "FileSource" |}.

Definition sample_df : DataFrame :=
  {| df_columns := ["driver_id"; "event_timestamp"];
     df_rows := [["1001"; "2021-01-01 00:00:00"]] |}.

Definition sample_env : environment :=
  {| client_project := "proj";
     time_time := 1609459200;
     utcnow := mk_datetime 1609459200000000 None;
     now_first := mk_datetime 1609459200000000 None;
     now_second := mk_datetime 1609459200000001 None |}.
(** ** Table administration *)

(** The Datastore entities the provider keeps: one of kind Table per
    feature table, holding the time it was registered, and the rows. *)
Record datastore : Type := {
  ds_tables : gmap (string * string) datetime;
  ds_rows : gmap RowKey StoredRow
}.

(** [client.query(kind="Row", ancestor=key).fetch(limit=...)], for the
    ancestor [client.key("Project", project, "Table", name)]. *)
Definition fetch_rows (limit : nat) (key : string * string)
    (rows : gmap RowKey StoredRow) : list (RowKey * StoredRow) :=
  take limit (map_to_list (filter (fun kv => kv.1.1 = key) rows)).

(** [for entity in entities: client.delete(entity.key)] *)
Definition delete_entities (entities : list (RowKey * StoredRow))
    (rows : gmap RowKey StoredRow) : gmap RowKey StoredRow :=
  foldl (fun m entity => delete entity.1 m) rows entities.

(** gcp.py, [_delete_all_values]: the rows left, and the number of queries
    sent. *)
Equations? _delete_all_values (rows : gmap RowKey StoredRow)
    (key : string * string) : gmap RowKey StoredRow * nat
    by wf (size rows) lt :=
  _delete_all_values rows key with inspect (fetch_rows 1000 key rows) := {
    | exist _ nil _ => (rows, 1%nat)
    | exist _ (cons entity entities) Hfetch =>
        let '(rows', queries) :=
          _delete_all_values (delete_entities (cons entity entities) rows) key in
        (rows', S queries) }.
Proof.
  match goal with
  | H : fetch_rows _ ?anc _ = (?k, ?v) :: ?es |- _ =>
      revert H; generalize anc k v es
  end.
  intros ancestor k v es Hfetch.
  assert (Hle : ∀ l (m : gmap RowKey StoredRow),
            (size (delete_entities l m) <= size m)%nat).
  { induction l as [|e l IH]; intros m; [done|]. cbn.
    etrans; [apply IH|]. rewrite map_size_delete.
    destruct (m !! e.1); simpl; lia. }
  assert (Hin : rows !! k = Some v).
  { assert ((k, v) ∈ fetch_rows 1000 ancestor rows) as Hel
      by (rewrite Hfetch; left).
    unfold fetch_rows in Hel. apply elem_of_take in Hel as (i & Hel & _).
    apply list_elem_of_lookup_2 in Hel.
    by apply elem_of_map_to_list, map_lookup_filter_Some in Hel as [Hk _]. }
  eapply Nat.le_lt_trans; [apply Hle|].
  rewrite map_size_delete_Some by eauto.
  assert (size rows ≠ 0%nat); [|lia].
  intros Hz. apply map_size_empty_inv in Hz. subst rows.
  by rewrite lookup_empty in Hin.
Qed.

(** The loop shared by [teardown_infra] and the second half of
    [update_infra]: delete the rows of each table, then its Table entity. *)
Fixpoint delete_tables (project : string) (table_names : list string)
    (ds : datastore) : datastore :=
  match table_names with
  | [] => ds
  | table_name :: rest =>
      delete_tables project rest
        {| ds_tables := delete (project, table_name) (ds_tables ds);
           ds_rows := (_delete_all_values (ds_rows ds) (project, table_name)).1 |}
  end.

(** gcp.py, [Gcp.teardown_infra] *)
Definition teardown_infra (project : string) (tables : list string)
    (ds : datastore) : datastore :=
  delete_tables project tables ds.

(** The first loop of [update_infra]: register every table to keep, with
    the reading of [datetime.utcnow()] at that moment ([clock i] is the
    reading of the [i]-th call). *)
Fixpoint put_tables (project : string) (clock : nat -> datetime) (i : nat)
    (table_names : list string) (ds : datastore) : datastore :=
  match table_names with
  | [] => ds
  | table_name :: rest =>
      put_tables project clock (S i) rest
        {| ds_tables := <[(project, table_name) := clock i]> (ds_tables ds);
           ds_rows := ds_rows ds |}
  end.

(** gcp.py, [Gcp.update_infra] *)
Definition update_infra (clock : nat -> datetime) (project : string)
    (tables_to_delete tables_to_keep : list string) (partial : bool)
    (ds : datastore) : datastore :=
  delete_tables project tables_to_delete
    (put_tables project clock 0 tables_to_keep ds).

(** ** Measures on the transaction log *)

(** The rows put by the transactions of a log that committed. *)
Fixpoint committed_rows (log : list txn_outcome) : nat :=
  match log with
  | [] => 0
  | Committed n :: rest => n + committed_rows rest
  | Aborted _ :: rest => committed_rows rest
  end.

Definition is_committed (o : txn_outcome) : Prop :=
  match o with Committed _ => True | Aborted _ => False end.

(** The number of transactions of a log that committed. *)
Fixpoint commits (log : list txn_outcome) : nat :=
  match log with
  | [] => 0
  | Committed _ :: rest => S (commits rest)
  | Aborted _ :: rest => commits rest
  end.

(** What the store raises in a transaction that reads [n] rows and then
    commits, if it raises anything. *)
Definition raised_by (n : nat) (f : fault) : option exn :=
  match f with
  | NoFault => None
  | GetFails i e => if (i <? n)%nat then Some e else None
  | CommitFails e => Some e
  end.

(** A record whose event timestamp has a tzinfo that gives no offset. *)
Definition record_no_utcoffset : @WriteRecord sample_externals :=
  ([Byte.x01], ∅, mk_datetime 5 (Some NoUtcOffset), None).

(** A record of the sample instantiation with a created timestamp. *)
Definition record_created (c : Z) : @WriteRecord sample_externals :=
  ([Byte.x01], ∅, mk_datetime 100 (Some (Offset 0)),
   Some (mk_datetime c None)).

Section ReadPredicates.
Context `{Ext : Externals}.

(** The rows a read looks at: those stored under the identifiers of the
    keys. *)
Definition looked_up (st : gmap RowKey StoredRow) (project table_name : string)
    (entity_keys : list EntityKeyProto) (row : StoredRow) : Prop :=
  ∃ entity_key, entity_key ∈ entity_keys ∧
    st !! (project, table_name, compute_datastore_entity_id entity_key)
      = Some row.

End ReadPredicates.

(** ** Reading identifiers back *)

(** The value of a lower-case hexadecimal digit, from its character code:
    48..57 are the digits 0 to 9 and 97..102 the letters a to f. *)
Definition unhex_digit (c : ascii) : option N :=
  let code := N_of_ascii c in
  if ((48 <=? code) && (code <=? 57))%N then Some (code - 48)%N
  else if ((97 <=? code) && (code <=? 102))%N then Some (code - 87)%N
  else None.

Definition unhex_byte (hi lo : ascii) : option Byte.byte :=
  match unhex_digit hi, unhex_digit lo with
  | Some h, Some l => Byte.of_N (16 * h + l)
  | _, _ => None
  end.

(** The inverse of [hex] on its image (what [bytes.fromhex] does on
    lower-case digits), used to show that [hex] loses nothing. *)
Fixpoint fromhex (s : string) : option bytes :=
  match s with
  | EmptyString => Some []
  | String hi (String lo rest) =>
      match unhex_byte hi lo, fromhex rest with
      | Some x, Some b => Some (x :: b)
      | _, _ => None
      end
  | String _ EmptyString => None
  end.

(** ** Pulling the latest rows *)

Section PullLatest.
Context `{Ext : Externals}.

(** gcp.py, [Gcp.pull_latest_from_table_or_query]: the query handed to
    [_pull_query], or the exception raised before that. *)
Definition pull_latest_from_table_or_query (data_source : DataSource)
    (entity_names feature_names : list string)
    (event_timestamp_column : string)
    (created_timestamp_column : option string)
    (start_date end_date : datetime) : result string :=
  match data_source with
  | SrcOther _ => Raise AssertionError
  | SrcBigQuery src =>
      let from_expression := get_table_query_string src in
      let partition_by_entity_string := String.concat ", " entity_names in
      let partition_by_entity_string :=
        if decide (partition_by_entity_string ≠ "")
        then "PARTITION BY " +:+ partition_by_entity_string
        else partition_by_entity_string in
      let timestamps :=
        [event_timestamp_column] ++
        match created_timestamp_column with
        | Some c => [c]
        | None => []
        end in
      let timestamp_desc_string :=
        String.concat " DESC, " timestamps +:+ " DESC" in
      let field_string :=
        String.concat ", " (entity_names ++ feature_names ++ timestamps) in
      Ok ("
            SELECT " +:+ field_string +:+ "
            FROM (
                SELECT " +:+ field_string +:+ ",
                ROW_NUMBER() OVER(" +:+ partition_by_entity_string
          +:+ " ORDER BY " +:+ timestamp_desc_string +:+ ") AS _feast_row
                FROM " +:+ from_expression +:+ "
                WHERE " +:+ event_timestamp_column
          +:+ " BETWEEN TIMESTAMP('" +:+ datetime_str start_date
          +:+ "') AND TIMESTAMP('" +:+ datetime_str end_date +:+ "')
            )
            WHERE _feast_row = 1
            ")
  end.

End PullLatest.

(** More inputs for the examples. *)
Definition sample_datastore : datastore :=
  {| ds_tables := {[ ("p", "t") := mk_datetime 0 None ]};
     ds_rows := store_of record_naive |}.

Definition sample_source : BigQuerySource :=
  {| bq_table_ref := "proj.ds.driver_stats";
     bq_event_timestamp_column := "ts";
     bq_created_timestamp_column := "created";
     bq_field_mapping := ∅;
     bq_query := "" |}.

Definition bigquery_view (ttl : option timedelta) : FeatureView :=
  {| fv_name := "driver_stats";
     fv_entities := ["driver_id"];
     fv_ttl := ttl;
     fv_input := SrcBigQuery sample_source |}.

(** * Properties *)

(** ** Minibatch splitting *)

Lemma to_minibatches_from_unfold {A} (n : nat) (l : list A) :
  _to_minibatches_from n l =
  match take n l with
  | [] => []
  | b => b :: _to_minibatches_from n (drop n l)
  end.
Proof.
  funelim (_to_minibatches_from n l).
  all: match goal with
       | E : take _ _ = _ |- _ => rewrite E; reflexivity
       end.
Qed.

Lemma to_minibatches_from_nil {A} (n : nat) :
  _to_minibatches_from n (@nil A) = [].
Proof. rewrite to_minibatches_from_unfold, take_nil. reflexivity. Qed.

Lemma to_minibatches_from_cons {A} (n : nat) (x : A) (l : list A) :
  _to_minibatches_from (S n) (x :: l) =
  take (S n) (x :: l) :: _to_minibatches_from (S n) (drop (S n) (x :: l)).
Proof. etrans; [apply to_minibatches_from_unfold|]. reflexivity. Qed.

(** The [i]-th batch is the [i]-th window of [n] records. *)
Lemma to_minibatches_from_lookup {A} (n : nat) (l : list A) (i : nat) :
  _to_minibatches_from (S n) l !! i =
  if decide (i * S n < length l)%nat
  then Some (take (S n) (drop (i * S n) l)) else None.
Proof.
  revert l. induction i as [|i IH]; intros l.
  - destruct l as [|x l].
    + rewrite to_minibatches_from_nil.
      destruct (decide _) as [Hlt|Hge]; simpl in *; [lia|done].
    + rewrite to_minibatches_from_cons.
      destruct (decide _) as [Hlt|Hge]; simpl in *; [done|lia].
  - destruct l as [|x l].
    + rewrite to_minibatches_from_nil.
      destruct (decide _) as [Hlt|Hge]; simpl in *; [lia|done].
    + rewrite to_minibatches_from_cons. cbn [lookup list_lookup].
      change (_to_minibatches_from (S n) (drop (S n) (x :: l)) !! i =
        if decide (S i * S n < length (x :: l))%nat
        then Some (take (S n) (drop (S i * S n) (x :: l))) else None).
      rewrite IH, length_drop, drop_drop.
      replace (S n + i * S n)%nat with (S i * S n)%nat by lia.
      repeat case_decide; try done; lia.
Qed.

Lemma to_minibatches_from_concat {A} (n : nat) (l : list A) :
  concat (_to_minibatches_from (S n) l) = l.
Proof.
  remember (length l) as len eqn:Hlen. revert l Hlen.
  induction len as [len IH] using lt_wf_ind. intros l Hlen.
  destruct l as [|x l]; [by rewrite to_minibatches_from_nil|].
  rewrite to_minibatches_from_cons. cbn [concat].
  rewrite (IH (length (drop (S n) (x :: l)))); [apply take_drop| |done].
  rewrite length_drop. subst len. simpl. lia.
Qed.

Lemma to_minibatches_from_length {A} (n : nat) (l : list A) :
  length (_to_minibatches_from (S n) l) = ((length l + n) / S n)%nat.
Proof.
  remember (length l) as len eqn:Hlen. revert l Hlen.
  induction len as [len IH] using lt_wf_ind. intros l Hlen.
  destruct l as [|x l].
  - rewrite to_minibatches_from_nil. subst len. simpl length.
    symmetry. apply Nat.div_small. lia.
  - rewrite to_minibatches_from_cons. cbn [length].
    rewrite (IH (length (drop (S n) (x :: l)))); [| |done].
    2:{ rewrite length_drop. subst len. cbn [length]. lia. }
    rewrite length_drop. subst len. cbn [length].
    destruct (decide (S n <= S (length l))%nat) as [Hge|Hlt].
    + replace (S (length l) + n)%nat with ((S (length l) - S n + n) + 1 * S n)%nat by lia.
      rewrite Nat.div_add by lia. lia.
    + replace (S (length l) - S n)%nat with 0%nat by lia.
      rewrite (Nat.div_small (0 + n)) by lia.
      apply (Nat.div_unique _ _ 1 (length l)%nat); lia.
Qed.

(** C4. [_to_minibatches] on [N] records yields [ceil(N/50)] batches; every
    batch holds between 1 and 50 records, and 50 unless it is the last; the
    batches concatenated in the order they are yielded give the input back. *)
Theorem to_minibatches_partition {A} (data : list A) :
  let batches := _to_minibatches data in
  length batches = ((length data + 49) / 50)%nat ∧
  (length data <= 50 * length batches < length data + 50)%nat ∧
  (∀ i batch, batches !! i = Some batch →
     (1 <= length batch <= 50)%nat ∧
     ((S i < length batches)%nat → length batch = 50%nat)) ∧
  concat batches = data.
Proof.
  unfold _to_minibatches. cbn zeta.
  pose proof (to_minibatches_from_length 49 data) as Hlen.
  assert (Hceil : (length data <=
      50 * ((length data + 49) / 50) < length data + 50)%nat).
  { pose proof (Nat.div_mod_eq (length data + 49) 50).
    pose proof (Nat.mod_upper_bound (length data + 49) 50). lia. }
  split; [exact Hlen|]. rewrite Hlen.
  split; [exact Hceil|].
  split; [|apply to_minibatches_from_concat].
  intros i batch Hi.
  rewrite to_minibatches_from_lookup in Hi.
  case_decide as Hlt; [|discriminate]. injection Hi as <-.
  rewrite length_take, length_drop. split; [lia|].
  intros Hnext. lia.
Qed.

Example to_minibatches_120 :
  map length (_to_minibatches (seq 0 120)) = [50; 50; 20]%nat.
Proof. vm_compute. reflexivity. Qed.

Example to_minibatches_100 :
  map length (_to_minibatches (seq 0 100)) = [50; 50]%nat.
Proof. vm_compute. reflexivity. Qed.


Lemma elem_of_concat {A} (x : A) (l : list A) (ls : list (list A)) :
  x ∈ l → l ∈ ls → x ∈ concat ls.
Proof.
  intros Hx. induction ls as [|l0 ls IH]; intros Hl.
  - by apply elem_of_nil in Hl.
  - cbn [concat]. apply elem_of_app.
    apply elem_of_cons in Hl as [<-|Hl]; auto.
Qed.

(** ** Datetimes *)

Lemma instant_make_tzaware (t : datetime) :
  instant (_make_tzaware t) = instant t.
Proof.
  destruct t as [wl [[off|]|]]; unfold _make_tzaware, instant, utc; cbn; lia.
Qed.

Lemma make_tzaware_aware (t : datetime) :
  plain_or_aware t = true → is_aware (_make_tzaware t) = true.
Proof. by destruct t as [wl [[off|]|]]. Qed.

Lemma dt_gt_aware (a b : datetime) :
  is_aware a = true → is_aware b = true →
  dt_gt a b = Ok (instant b <? instant a).
Proof.
  unfold is_aware, dt_gt, instant.
  destruct (utcoffset a), (utcoffset b); done.
Qed.

Lemma dt_gt_Ok (a b : datetime) (r : bool) :
  dt_gt a b = Ok r → r = (instant b <? instant a).
Proof.
  unfold dt_gt, instant.
  destruct (utcoffset a), (utcoffset b); try done; congruence.
Qed.

Lemma dt_eq_aware (a b : datetime) :
  is_aware a = true → is_aware b = true →
  dt_eq a b = (instant a =? instant b).
Proof.
  unfold is_aware, dt_eq, instant.
  destruct (utcoffset a), (utcoffset b); done.
Qed.

(** A value whose tzinfo gives no offset is left as it is, and cannot be
    ordered against an aware one. *)
Lemma dt_gt_no_utcoffset (a : datetime) (wl : Z) :
  is_aware a = true →
  dt_gt a (_make_tzaware (mk_datetime wl (Some NoUtcOffset))) = Raise TypeError.
Proof.
  unfold is_aware, dt_gt. cbn. by destruct (utcoffset a).
Qed.

Example dt_gt_mixed :
  dt_gt (mk_datetime 5 None) (mk_datetime 5 (Some (Offset 0))) = Raise TypeError.
Proof. reflexivity. Qed.

Example dt_gt_across_offsets :
  dt_gt (mk_datetime 7200000001 (Some (Offset 7200000000)))
        (mk_datetime 0 (Some (Offset 0)))
  = Ok true.
Proof. reflexivity. Qed.

Example make_tzaware_naive :
  _make_tzaware (mk_datetime 5 None) = mk_datetime 5 (Some (Offset 0)).
Proof. reflexivity. Qed.

(** ** What the store keeps of a timestamp *)

Section Persist.
Context `{Ext : Externals}.

Lemma persist_datetime_utc (t : datetime) :
  tzinfo (persist_datetime t) = Some (Offset utc).
Proof. by destruct t as [wl [[off|]|]]. Qed.

Lemma persist_datetime_aware (t : datetime) :
  is_aware (persist_datetime t) = true.
Proof. by destruct t as [wl [[off|]|]]. Qed.

Lemma persist_make_tzaware (t : datetime) :
  plain_or_aware t = true →
  persist_datetime (_make_tzaware t) = utc_normalization t.
Proof.
  destruct t as [wl [[off|]|]]; [done|done|].
  intros _. unfold utc_normalization, instant. cbn. unfold utc. f_equal. lia.
Qed.

Lemma instant_persist_datetime (t : datetime) :
  is_aware t = true → instant (persist_datetime t) = instant t.
Proof.
  destruct t as [wl [[off|]|]]; [|done|done].
  intros _. unfold instant. cbn. unfold utc. lia.
Qed.

Lemma persist_wf (row : StoredRow) : row_wf (persist row).
Proof.
  split; cbn [persist event_ts created_ts]; [apply persist_datetime_aware|].
  intros c Hc. destruct (created_ts row) as [c0|]; [|done].
  injection Hc as <-. apply persist_datetime_aware.
Qed.

Lemma persist_updated_row (rec : WriteRecord) :
  record_plain_or_aware rec = true →
  persist (updated_row rec) = incoming_values rec.
Proof.
  destruct rec as [[[entity_key feats] timestamp] created].
  unfold record_plain_or_aware. cbn [fst snd].
  intros [Hts Hcr]%andb_prop.
  unfold persist, incoming_values. cbn [updated_row key values event_ts created_ts fst snd].
  f_equal; [by apply persist_make_tzaware|].
  destruct created as [c|]; [|done]. cbn. f_equal. by apply persist_make_tzaware.
Qed.

End Persist.

(** ** The staleness guard *)

Section OnlineFacts.
Context `{Ext : Externals}.

Lemma is_stale_spec (e : StoredRow) (timestamp : datetime)
    (created : option datetime) :
  row_wf e →
  plain_or_aware timestamp = true →
  (∀ c, created = Some c → plain_or_aware c = true) →
  is_stale e timestamp created
  = Ok (bool_decide (stale_cond e timestamp created)).
Proof.
  intros [Hev Hcr] Hts Hc. unfold is_stale.
  rewrite (dt_gt_aware _ _ Hev (make_tzaware_aware _ Hts)).
  rewrite (dt_eq_aware _ _ Hev (make_tzaware_aware _ Hts)).
  rewrite !instant_make_tzaware. cbn [mbind result_bind].
  destruct (Z.ltb_spec (instant timestamp) (instant (event_ts e))) as [Hlt|Hge].
  { rewrite bool_decide_eq_true_2; [done|]. by left. }
  destruct (Z.eqb_spec (instant (event_ts e)) (instant timestamp)) as [Heq|Hne].
  2:{ rewrite bool_decide_eq_false_2; [done|]. intros [?|[? _]]; [lia|done]. }
  destruct created as [c|].
  2:{ rewrite bool_decide_eq_false_2; [done|].
      intros [?|[_ (c & ec & ? & _)]]; [lia|done]. }
  destruct (created_ts e) as [ec|] eqn:Hec.
  2:{ rewrite bool_decide_eq_false_2; [done|].
      intros [?|[_ (c' & ec & _ & ? & _)]]; [lia|congruence]. }
  rewrite (dt_gt_aware _ _ (Hcr _ eq_refl) (make_tzaware_aware _ (Hc _ eq_refl))).
  rewrite instant_make_tzaware.
  destruct (Z.ltb_spec (instant c) (instant ec)) as [Hlt|Hge'].
  - rewrite bool_decide_eq_true_2; [done|]. right. split; [done|].
    by exists c, ec.
  - rewrite bool_decide_eq_false_2; [done|].
    intros [?|[_ (c' & ec' & [= <-] & Hec' & ?)]]; [lia|].
    rewrite Hec in Hec'. injection Hec' as <-. lia.
Qed.

(** What one iteration does with a record, given the rows [client.get]
    reads: nothing when the design's condition holds, otherwise a put of
    the row built from the record. *)
Lemma write_record_spec (project table_name : string)
    (st : gmap RowKey StoredRow)
    (rec : WriteRecord) :
  (∀ e, st !! row_key project table_name rec = Some e → row_wf e) →
  record_plain_or_aware rec = true →
  write_record (st !! row_key project table_name rec) rec
  = Ok (if decide (skipped project table_name st rec) then Skip
        else Upsert (updated_row rec)).
Proof.
  intros Hwf Hrec.
  destruct rec as [[[entity_key feats] timestamp] created].
  unfold record_plain_or_aware in Hrec. cbn [fst snd] in Hrec.
  apply andb_prop in Hrec as [Hts Hcr].
  destruct (decide (skipped project table_name st
                      (entity_key, feats, timestamp, created))) as [Hs|Hs];
    unfold skipped in Hs;
    destruct (st !! row_key project table_name
                      (entity_key, feats, timestamp, created)) as [e|] eqn:He;
    cbn [write_record fst snd] in *; try done.
  - rewrite (is_stale_spec e timestamp created (Hwf e eq_refl) Hts).
    2:{ by intros c ->. }
    by rewrite bool_decide_eq_true_2.
  - rewrite (is_stale_spec e timestamp created (Hwf e eq_refl) Hts).
    2:{ by intros c ->. }
    by rewrite bool_decide_eq_false_2.
Qed.

(** A put over an existing row never moves its event time back. *)
Lemma write_record_upsert_le (e : StoredRow) (rec : WriteRecord) (row : StoredRow) :
  write_record (Some e) rec = Ok (Upsert row) →
  row = updated_row rec ∧ instant (event_ts e) <= instant (event_ts row) ∧
  (is_aware (event_ts e) = true → is_aware (event_ts row) = true).
Proof.
  destruct rec as [[[entity_key feats] timestamp] created].
  unfold write_record, is_stale.
  destruct (dt_gt (event_ts e) (_make_tzaware timestamp)) as [fresher|] eqn:Hgt;
    cbn [mbind result_bind]; [|done].
  assert (Haw : is_aware (event_ts e) = true →
                is_aware (_make_tzaware timestamp) = true).
  { unfold is_aware, dt_gt in *.
    by destruct (utcoffset (event_ts e)), (utcoffset (_make_tzaware timestamp)). }
  apply dt_gt_Ok in Hgt. rewrite instant_make_tzaware in Hgt.
  destruct fresher; cbn [mbind result_bind]; [done|].
  intros Hw.
  assert (row = updated_row (entity_key, feats, timestamp, created)) as ->.
  { destruct (dt_eq _ _); cbn [mbind result_bind] in Hw; [|congruence].
    destruct created, (created_ts e); cbn [mbind result_bind] in Hw;
      try congruence.
    destruct (dt_gt _ _) as [[]|]; cbn [mbind result_bind] in Hw; congruence. }
  split; [done|]. cbn [updated_row event_ts].
  rewrite instant_make_tzaware. split; [lia|done].
Qed.

Lemma write_record_None (rec : WriteRecord) :
  write_record None rec = Ok (Upsert (updated_row rec)).
Proof. by destruct rec as [[[? ?] ?] ?]. Qed.

Lemma write_record_upsert (entity : option StoredRow) (rec : WriteRecord)
    (row : StoredRow) :
  write_record entity rec = Ok (Upsert row) → row = updated_row rec.
Proof.
  destruct entity as [e|].
  - intros Hw. by apply write_record_upsert_le in Hw as [-> _].
  - rewrite write_record_None. congruence.
Qed.

(** The puts of a record list: one per record, in order. *)
Lemma txn_body_puts project table_name progress f (data : list WriteRecord) :
  ∀ i snapshot puts log n log' puts' n',
  txn_body project table_name progress f i data snapshot puts log n
    = (log', Ok (puts', n')) →
  ∃ written,
    puts' = puts ++ puts_of project table_name written ∧
    written `sublist_of` data ∧
    n' = (n + length written)%nat ∧
    log' = log ++ (if progress then replicate (length written) 1 else []) ∧
    ∀ rec, rec ∈ written →
      ∀ e, snapshot !! row_key project table_name rec = Some e →
        write_record (Some e) rec = Ok (Upsert (updated_row rec)).
Proof.
  induction data as [|rec rest IH]; intros i snapshot puts log n log' puts' n';
    cbn [txn_body].
  - intros [= <- <- <-]. exists []. cbn. rewrite !app_nil_r.
    split; [done|]. split; [done|]. split; [lia|].
    split; [by destruct progress; rewrite ?app_nil_r|].
    intros rec Hrec. by apply elem_of_nil in Hrec.
  - destruct (get_fault f i); [done|].
    destruct (write_record _ rec) as [[|row]|] eqn:Hw; [| |done].
    + intros Hrest. apply IH in Hrest as (written & -> & Hsub & -> & -> & Hall).
      exists written. split; [done|]. split; [by apply sublist_cons|]. done.
    + intros Hrest. apply IH in Hrest as (written & -> & Hsub & -> & -> & Hall).
      pose proof (write_record_upsert _ _ _ Hw) as ->.
      exists (rec :: written). unfold puts_of. cbn [fmap list_fmap length].
      rewrite <- app_assoc. split; [done|]. split; [by apply sublist_skip|].
      split; [lia|]. split.
      { destruct progress; [|done]. by rewrite <- app_assoc. }
      intros r [->|Hr]%elem_of_cons; [|by apply Hall].
      intros e He. by rewrite He in Hw.
Qed.

(** With rows that have aware timestamps and records whose timestamps are
    naive or aware, a body that reaches its end has put the records that
    the design does not skip. *)
Lemma txn_body_not_skipped project table_name progress f (data : list WriteRecord) :
  ∀ i snapshot puts log n log' puts' n',
  (∀ k r, snapshot !! k = Some r → row_wf r) →
  Forall (fun rec => record_plain_or_aware rec = true) data →
  txn_body project table_name progress f i data snapshot puts log n
    = (log', Ok (puts', n')) →
  let written := not_skipped project table_name snapshot data in
  puts' = puts ++ puts_of project table_name written ∧
  n' = (n + length written)%nat ∧
  log' = log ++ (if progress then replicate (length written) 1 else []).
Proof.
  induction data as [|rec rest IH]; intros i snapshot puts log n log' puts' n' Hwf Hrec;
    cbn [txn_body].
  - intros [= <- <- <-]. cbn. rewrite !app_nil_r.
    split; [done|]. split; [lia|]. by destruct progress; rewrite ?app_nil_r.
  - destruct (get_fault f i); [done|].
    apply Forall_cons in Hrec as [Hr Hrest].
    rewrite (write_record_spec project table_name snapshot rec
               (fun e => Hwf _ e) Hr).
    unfold not_skipped. rewrite filter_cons.
    destruct (decide (skipped project table_name snapshot rec)) as [Hs|Hs].
    + rewrite decide_False by tauto.
      intros Hbody. by apply IH in Hbody.
    + rewrite decide_True by done.
      intros Hbody. apply IH in Hbody as (-> & -> & ->); [|done|done].
      unfold puts_of. cbn [fmap list_fmap length]. rewrite <- app_assoc.
      fold (not_skipped project table_name snapshot rest).
      split; [done|]. split; [lia|].
      destruct progress; [|done]. by rewrite <- app_assoc.
Qed.

(** Whether the body reaches its end is decided by the fault alone. *)
Lemma txn_body_raises project table_name progress f (data : list WriteRecord) :
  ∀ i snapshot puts log n,
  (∀ k r, snapshot !! k = Some r → row_wf r) →
  Forall (fun rec => record_plain_or_aware rec = true) data →
  match (txn_body project table_name progress f i data snapshot puts log n).2 with
  | Ok _ => ∀ j, (i <= j < i + length data)%nat → get_fault f j = None
  | Raise e => ∃ j, (i <= j < i + length data)%nat ∧ get_fault f j = Some e
  end.
Proof.
  induction data as [|rec rest IH]; intros i snapshot puts log n Hwf Hrec;
    cbn [txn_body].
  - cbn. intros j ?. lia.
  - apply Forall_cons in Hrec as [Hr Hrest].
    destruct (get_fault f i) as [e|] eqn:Hf.
    { cbn. exists i. split; [lia|done]. }
    rewrite (write_record_spec project table_name snapshot rec
               (fun e => Hwf _ e) Hr).
    destruct (decide (skipped project table_name snapshot rec)).
    + specialize (IH (S i) snapshot puts log n Hwf Hrest).
      destruct (txn_body _ _ _ _ _ rest _ _ _ _).2 as [?|e].
      * intros j Hj. destruct (decide (j = i)) as [->|]; [done|].
        apply IH. cbn [length] in Hj. lia.
      * destruct IH as (j & Hj & Hfj). exists j. cbn [length]. split; [lia|done].
    + specialize (IH (S i) snapshot
                    (puts ++ [(row_key project table_name rec, updated_row rec)])
                    (if progress then log ++ [1] else log) (S n) Hwf Hrest).
      destruct (txn_body _ _ _ _ _ rest _ _ _ _).2 as [?|e].
      * intros j Hj. destruct (decide (j = i)) as [->|]; [done|].
        apply IH. cbn [length] in Hj. lia.
      * destruct IH as (j & Hj & Hfj). exists j. cbn [length]. split; [lia|done].
Qed.

End OnlineFacts.

(** ** Transactions *)

Section Transactions.
Context `{Ext : Externals}.

Lemma commit_puts_snoc (puts : list (RowKey * StoredRow)) (put : RowKey * StoredRow)
    (st : gmap RowKey StoredRow) :
  commit_puts (puts ++ [put]) st
  = <[put.1 := persist put.2]> (commit_puts puts st).
Proof. unfold commit_puts. by rewrite foldl_app. Qed.

(** After the commit a key holds the row of the last record put under it,
    or what it held before if none was. *)
Lemma commit_puts_lookup (project table_name : string)
    (written : list WriteRecord) (st : gmap RowKey StoredRow) (k : RowKey) :
  commit_puts (puts_of project table_name written) st !! k
  = match last_for project table_name k written with
    | Some rec => Some (persist (updated_row rec))
    | None => st !! k
    end.
Proof.
  induction written as [|rec written IH] using rev_ind; [done|].
  unfold puts_of, last_for in *. rewrite fmap_app, filter_app. cbn [fmap list_fmap].
  rewrite commit_puts_snoc. cbn [fst snd].
  rewrite filter_cons, filter_nil.
  destruct (decide (row_key project table_name rec = k)) as [<-|Hne].
  - by rewrite lookup_insert_eq, last_snoc.
  - rewrite lookup_insert_ne by done. by rewrite app_nil_r.
Qed.

Lemma last_for_elem (project table_name : string) (k : RowKey)
    (data : list WriteRecord) (rec : WriteRecord) :
  last_for project table_name k data = Some rec →
  rec ∈ data ∧ row_key project table_name rec = k.
Proof.
  unfold last_for. intros Hlast.
  assert (rec ∈ filter (fun rec => row_key project table_name rec = k) data)
    as Hin.
  { apply last_Some in Hlast as [l' ->]. apply elem_of_app. right. by left. }
  by apply list_elem_of_filter in Hin as [? ?].
Qed.

Lemma last_for_None (project table_name : string) (k : RowKey)
    (data : list WriteRecord) :
  (∀ rec, rec ∈ data → row_key project table_name rec ≠ k) →
  last_for project table_name k data = None.
Proof.
  intros Hk. unfold last_for.
  destruct (last _) as [rec|] eqn:Hlast; [|done].
  apply last_for_elem in Hlast as [Hin Heq]. by destruct (Hk rec Hin).
Qed.

(** An attempt uses up one entry of the faults, adds one entry to the
    transaction log, which tells how it ended, and leaves the rows as they
    were when it raises. *)
Lemma attempt_outcome project table_name progress (data : list WriteRecord) w :
  faults (attempt project table_name progress data w).1 = tl (faults w) ∧
  ∃ o, txn_log (attempt project table_name progress data w).1
         = txn_log w ++ [o] ∧
       match (attempt project table_name progress data w).2 with
       | Ok n => o = Committed n
       | Raise e =>
           o = Aborted e ∧
           store (attempt project table_name progress data w).1 = store w
       end.
Proof.
  unfold attempt.
  destruct (txn_body _ _ _ _ _ _ _ _ _ _) as [log [[puts n]|e]].
  - destruct (commit_fault _) as [e|]; cbn; eauto.
  - cbn. eauto.
Qed.

(** The rows after an attempt: those before it, with the records put by
    the transaction if it committed. *)
Lemma attempt_store project table_name progress (data : list WriteRecord) w :
  ∃ written,
    written `sublist_of` data ∧
    (∀ rec, rec ∈ written →
       ∀ e, store w !! row_key project table_name rec = Some e →
         write_record (Some e) rec = Ok (Upsert (updated_row rec))) ∧
    store (attempt project table_name progress data w).1
    = commit_puts (puts_of project table_name written) (store w).
Proof.
  unfold attempt.
  destruct (txn_body _ _ _ _ _ _ _ _ _ _) as [log [[puts n]|e]] eqn:Hbody.
  - destruct (commit_fault _) as [e|]; cbn [fst store].
    + exists []. split; [apply sublist_nil_l|]. split; [|done].
      intros rec Hrec. by apply elem_of_nil in Hrec.
    + apply txn_body_puts in Hbody as (written & -> & Hsub & _ & _ & Hall).
      exists written. by rewrite app_nil_l.
  - exists []. split; [apply sublist_nil_l|]. split; [|done].
    intros rec Hrec. by apply elem_of_nil in Hrec.
Qed.

(** With rows that have aware timestamps and records whose timestamps are
    naive or aware, the fault alone decides how an attempt ends, and an
    attempt that commits has put the records the design does not skip. *)
Lemma attempt_spec project table_name progress (data : list WriteRecord) w :
  (∀ k r, store w !! k = Some r → row_wf r) →
  Forall (fun rec => record_plain_or_aware rec = true) data →
  let written := not_skipped project table_name (store w) data in
  match raised_by (length data) (hd NoFault (faults w)) with
  | Some e =>
      (attempt project table_name progress data w).2 = Raise e
  | None =>
      (attempt project table_name progress data w).2 = Ok (length written) ∧
      store (attempt project table_name progress data w).1
        = commit_puts (puts_of project table_name written) (store w) ∧
      progress_log (attempt project table_name progress data w).1
        = progress_log w ++
          (if progress then replicate (length written) 1 else [])
  end.
Proof.
  intros Hwf Hrec written. unfold attempt.
  pose proof (txn_body_raises project table_name progress
                (hd NoFault (faults w)) data 0 (store w) [] (progress_log w) 0
                Hwf Hrec) as Hraise.
  destruct (txn_body _ _ _ _ _ _ _ _ _ _) as [log [[puts n]|e]] eqn:Hbody;
    cbn [snd] in Hraise.
  - apply txn_body_not_skipped in Hbody as (-> & -> & ->); [|done|done].
    fold written.
    destruct (hd NoFault (faults w)) as [|i e|e]; cbn [raised_by commit_fault].
    + done.
    + destruct (Nat.ltb_spec i (length data)) as [Hlt|Hge]; [|done].
      specialize (Hraise i ltac:(lia)). cbn in Hraise.
      by rewrite Nat.eqb_refl in Hraise.
    + done.
  - destruct Hraise as (j & Hj & Hfj).
    destruct (hd NoFault (faults w)) as [|i e'|e']; cbn [raised_by get_fault] in *;
      try done.
    destruct (Nat.eqb_spec j i) as [->|]; [|done]. injection Hfj as ->.
    destruct (Nat.ltb_spec i (length data)); [done|lia].
Qed.

(** The loop over [range(a, a + m)], where [a + m] is the number of
    attempts allowed, against a store that reports a conflict in the first
    [k] transactions: the attempt after those decides. *)
Lemma retry_loop_after_conflicts project table_name progress
    (data : list WriteRecord) (k : nat) :
  ∀ m a w,
  (a + m = num_retries_on_conflict)%nat → (k < m)%nat →
  (∀ k r, store w !! k = Some r → row_wf r) →
  Forall (fun rec => record_plain_or_aware rec = true) data →
  (∀ i, (i < k)%nat →
     raised_by (length data) (nth i (faults w) NoFault) = Some Conflict) →
  ∃ w0,
    store w0 = store w ∧
    faults w0 = drop k (faults w) ∧
    txn_log w0 = txn_log w ++ replicate k (Aborted Conflict) ∧
    match (attempt project table_name progress data w0).2 with
    | Raise Conflict =>
        (a + k = 2)%nat →
        retry_loop project table_name progress data (seq a m) w
        = ((attempt project table_name progress data w0).1, Raise Conflict)
    | Raise e =>
        retry_loop project table_name progress data (seq a m) w
        = ((attempt project table_name progress data w0).1, Raise e)
    | Ok _ =>
        retry_loop project table_name progress data (seq a m) w
        = ((attempt project table_name progress data w0).1, Ok ())
    end.
Proof.
  induction k as [|k IH]; intros m a w Ham Hkm Hwf Hrec Hconf.
  - exists w. rewrite drop_0. cbn [replicate]. rewrite app_nil_r.
    split; [done|]. split; [done|]. split; [done|].
    destruct m as [|m]; [lia|]. cbn [seq retry_loop].
    destruct (attempt project table_name progress data w) as [w1 [n|e]];
      cbn [fst snd]; [done|].
    destruct e; try done.
    intros Ha. unfold num_retries_on_conflict in *.
    destruct (Nat.eqb_spec a (3 - 1)); [done|lia].
  - destruct m as [|m]; [lia|]. cbn [seq retry_loop].
    pose proof (attempt_spec project table_name progress data w Hwf Hrec) as Hspec.
    cbn zeta in Hspec.
    specialize (Hconf 0%nat ltac:(lia)) as Hfirst.
    assert (Hhd : nth 0 (faults w) NoFault = hd NoFault (faults w))
      by (by destruct (faults w)).
    rewrite Hhd in Hfirst. rewrite Hfirst in Hspec.
    destruct (attempt_outcome project table_name progress data w)
      as (Hfaults & o & Hlog & Ho).
    destruct (attempt project table_name progress data w) as [w1 r] eqn:Hatt.
    cbn [fst snd] in *. subst r. destruct Ho as [-> Hstore].
    unfold num_retries_on_conflict in *.
    destruct (Nat.eqb_spec a (3 - 1)) as [|Hna]; [lia|].
    destruct (IH m (S a) w1) as (w0 & Hst0 & Hf0 & Hlog0 & Hrun); try lia.
    { intros k' r. rewrite Hstore. apply Hwf. }
    { done. }
    { intros i Hi. rewrite Hfaults.
      specialize (Hconf (S i) ltac:(lia)).
      destruct (faults w) as [|f fs]; [by destruct i|done]. }
    exists w0. split; [congruence|]. split.
    { rewrite Hf0, Hfaults. by destruct (faults w). }
    split.
    { rewrite Hlog0, Hlog, <- app_assoc. done. }
    destruct (attempt project table_name progress data w0) as [w2 [n|e]];
      cbn [fst snd] in *; [done|].
    destruct e; try done. intros Hak. apply Hrun. lia.
Qed.

End Transactions.

(** ** The worker pool *)

Lemma pool_chunksize_pos (n : nat) : (0 < n → 0 < pool_chunksize n)%nat.
Proof.
  intros Hn. unfold pool_chunksize, pool_processes.
  destruct (Nat.eqb_spec (n mod (10 * 4)) 0) as [Hz|]; [|lia].
  pose proof (Nat.div_mod_eq n (10 * 4)). lia.
Qed.

(** The chunks of [pool.map] put together are the tasks. *)
Lemma pool_chunks_concat {A} (tasks : list A) :
  concat (_to_minibatches_from (pool_chunksize (length tasks)) tasks) = tasks.
Proof.
  destruct tasks as [|b tasks]; [by rewrite to_minibatches_from_nil|].
  pose proof (pool_chunksize_pos (length (b :: tasks)) ltac:(cbn; lia)) as Hpos.
  destruct (pool_chunksize (length (b :: tasks))) as [|c]; [lia|].
  apply to_minibatches_from_concat.
Qed.

(** The first task is the first of the first chunk. *)
Lemma pool_chunks_first {A} (b : A) (tasks : list A) :
  ∃ chunk chunks,
    _to_minibatches_from (pool_chunksize (length (b :: tasks))) (b :: tasks)
    = (b :: chunk) :: chunks.
Proof.
  pose proof (pool_chunksize_pos (length (b :: tasks)) ltac:(cbn; lia)) as Hpos.
  destruct (pool_chunksize (length (b :: tasks))) as [|c]; [lia|].
  rewrite to_minibatches_from_cons. cbn [take]. eauto.
Qed.

Section Pool.
Context {B : Type} (f : B → world → world * result unit).
Context (R : world → world → Prop).
Hypothesis R_refl : ∀ w, R w w.
Hypothesis R_trans : ∀ w1 w2 w3, R w1 w2 → R w2 w3 → R w1 w3.

Lemma mapstar_preserves (chunk : list B) :
  (∀ b w, b ∈ chunk → R w (f b w).1) →
  ∀ w, R w (mapstar f chunk w).1.
Proof.
  induction chunk as [|b rest IH]; intros Hf w; cbn [mapstar]; [done|].
  pose proof (Hf b w ltac:(by left)) as Hb.
  destruct (f b w) as [w1 [[]|e]]; cbn [fst] in *; [|done].
  eapply R_trans; [exact Hb|]. apply IH. intros b' w' Hin. apply Hf. by right.
Qed.

Lemma run_chunks_preserves (chunks : list (list B)) :
  (∀ b w, b ∈ concat chunks → R w (f b w).1) →
  ∀ w, R w (run_chunks f chunks w).1.
Proof.
  induction chunks as [|chunk rest IH]; intros Hf w; cbn [run_chunks]; [done|].
  cbn [concat] in Hf.
  pose proof (mapstar_preserves chunk
                (fun b w Hin => Hf b w (proj2 (elem_of_app _ _ _) (or_introl Hin)))
                w) as Hc.
  destruct (mapstar f chunk w) as [w1 r].
  specialize (IH (fun b w Hin => Hf b w (proj2 (elem_of_app _ _ _) (or_intror Hin)))
                 w1).
  destruct (run_chunks f rest w1) as [w2 rs]. cbn [fst] in *.
  by eapply R_trans.
Qed.

(** What every task keeps, [pool.map] keeps. *)
Lemma pool_map_preserves (tasks : list B) :
  (∀ b w, b ∈ tasks → R w (f b w).1) →
  ∀ w, R w (pool_map f tasks w).1.
Proof.
  intros Hf w. unfold pool_map. apply run_chunks_preserves.
  by rewrite pool_chunks_concat.
Qed.

End Pool.

(** ** What a write does to the rows *)

Section WriteFacts.
Context `{Ext : Externals}.

(** The rows after [_write_minibatch]: those before it, with the records
    put by the transaction that committed, if one did. *)
Lemma retry_loop_store project table_name progress (data : list WriteRecord)
    range :
  ∀ w, ∃ written,
    written `sublist_of` data ∧
    (∀ rec, rec ∈ written →
       ∀ e, store w !! row_key project table_name rec = Some e →
         write_record (Some e) rec = Ok (Upsert (updated_row rec))) ∧
    store (retry_loop project table_name progress data range w).1
    = commit_puts (puts_of project table_name written) (store w).
Proof.
  assert (Hnone : ∀ w : world, ∃ written,
            written `sublist_of` data ∧
            (∀ rec, rec ∈ written →
               ∀ e, store w !! row_key project table_name rec = Some e →
                 write_record (Some e) rec = Ok (Upsert (updated_row rec))) ∧
            store w = commit_puts (puts_of project table_name written) (store w)).
  { intros w. exists []. split; [apply sublist_nil_l|]. split; [|done].
    intros rec Hrec. by apply elem_of_nil in Hrec. }
  induction range as [|retry_number range IH]; intros w; cbn [retry_loop].
  - apply Hnone.
  - pose proof (attempt_store project table_name progress data w) as Hst.
    destruct (attempt_outcome project table_name progress data w)
      as (_ & o & _ & Ho).
    destruct (attempt project table_name progress data w) as [w1 [cnt|e]];
      cbn [fst snd] in *; [done|].
    destruct Ho as [_ Hsame].
    assert (Hkeep : ∃ written,
              written `sublist_of` data ∧
              (∀ rec, rec ∈ written →
                 ∀ e, store w !! row_key project table_name rec = Some e →
                   write_record (Some e) rec = Ok (Upsert (updated_row rec))) ∧
              store w1 = commit_puts (puts_of project table_name written) (store w)).
    { rewrite Hsame. apply Hnone. }
    destruct e; try exact Hkeep.
    destruct (Nat.eqb _ _); [exact Hkeep|].
    destruct (IH w1) as (written & Hsub & Hall & Hstore).
    exists written. rewrite Hsame in *. done.
Qed.

Lemma write_minibatch_store project table_name (data : list WriteRecord)
    progress w :
  ∃ written,
    written `sublist_of` data ∧
    (∀ rec, rec ∈ written →
       ∀ e, store w !! row_key project table_name rec = Some e →
         write_record (Some e) rec = Ok (Upsert (updated_row rec))) ∧
    store (_write_minibatch project table_name data progress w).1
    = commit_puts (puts_of project table_name written) (store w).
Proof. apply retry_loop_store. Qed.

(** A call that raises leaves the rows as they were. *)
Lemma retry_loop_raise_keeps_store project table_name progress
    (data : list WriteRecord) range :
  ∀ w e,
  (retry_loop project table_name progress data range w).2 = Raise e →
  store (retry_loop project table_name progress data range w).1 = store w.
Proof.
  induction range as [|retry_number range IH]; intros w e; cbn [retry_loop];
    [done|].
  destruct (attempt_outcome project table_name progress data w)
    as (_ & o & _ & Ho).
  destruct (attempt project table_name progress data w) as [w1 [cnt|e1]];
    cbn [fst snd] in *; [done|].
  destruct Ho as [_ Hsame].
  destruct e1; try done.
  destruct (Nat.eqb _ _); [done|].
  intros Hr. rewrite (IH w1 e Hr). done.
Qed.

Lemma write_minibatch_raise_keeps_store project table_name
    (data : list WriteRecord) progress w e :
  (_write_minibatch project table_name data progress w).2 = Raise e →
  store (_write_minibatch project table_name data progress w).1 = store w.
Proof. apply retry_loop_raise_keeps_store. Qed.

Lemma write_minibatch_frame project table_name (data : list WriteRecord)
    progress w k :
  (∀ rec, rec ∈ data → row_key project table_name rec ≠ k) →
  store (_write_minibatch project table_name data progress w).1 !! k
  = store w !! k.
Proof.
  intros Hk.
  destruct (write_minibatch_store project table_name data progress w)
    as (written & Hsub & _ & ->).
  rewrite commit_puts_lookup, last_for_None; [done|].
  intros rec Hrec. apply Hk. by eapply elem_of_sublist.
Qed.

Lemma write_minibatch_from_records project table_name (data : list WriteRecord)
    progress w :
  from_records project table_name data (store w)
    (store (_write_minibatch project table_name data progress w).1).
Proof.
  destruct (write_minibatch_store project table_name data progress w)
    as (written & Hsub & _ & ->).
  intros k row. rewrite commit_puts_lookup.
  destruct (last_for project table_name k written) as [rec|] eqn:Hlast;
    [|by left].
  intros [= <-]. right. apply last_for_elem in Hlast as [Hin <-].
  exists rec. split; [by eapply elem_of_sublist|done].
Qed.

(** No row is lost, and a row with an aware event time keeps one that is
    not earlier. *)
Lemma write_minibatch_store_le project table_name (data : list WriteRecord)
    progress w :
  (∀ k r, store w !! k = Some r → row_wf r) →
  store_le (store w)
    (store (_write_minibatch project table_name data progress w).1).
Proof.
  intros Hwf.
  destruct (write_minibatch_store project table_name data progress w)
    as (written & Hsub & Hall & ->).
  intros k r Hk. rewrite commit_puts_lookup.
  destruct (last_for project table_name k written) as [rec|] eqn:Hlast.
  2:{ exists r. split; [done|lia]. }
  apply last_for_elem in Hlast as [Hin <-].
  exists (persist (updated_row rec)). split; [done|].
  pose proof (Hall rec Hin r Hk) as Hw.
  apply write_record_upsert_le in Hw as (_ & Hle & Haw).
  cbn [persist event_ts].
  rewrite instant_persist_datetime; [done|].
  apply Haw. by destruct (Hwf _ _ Hk).
Qed.

Lemma write_minibatch_rows_wf project table_name (data : list WriteRecord)
    progress w :
  (∀ k r, store w !! k = Some r → row_wf r) →
  ∀ k r,
    store (_write_minibatch project table_name data progress w).1 !! k = Some r →
    row_wf r.
Proof.
  intros Hwf k r Hk.
  destruct (write_minibatch_from_records project table_name data progress
              w k r Hk) as [Hold|(rec & _ & _ & ->)].
  - by eapply Hwf.
  - apply persist_wf.
Qed.

Lemma from_records_refl project table_name data st :
  from_records project table_name data st st.
Proof. intros k row Hk. by left. Qed.

Lemma from_records_trans project table_name data st1 st2 st3 :
  from_records project table_name data st1 st2 →
  from_records project table_name data st2 st3 →
  from_records project table_name data st1 st3.
Proof.
  intros H12 H23 k row Hk.
  destruct (H23 k row Hk) as [Hk2|(rec & Hin & -> & ->)].
  - by apply H12.
  - right. exists rec. auto.
Qed.

Lemma from_records_mono project table_name data1 data st st' :
  (∀ rec, rec ∈ data1 → rec ∈ data) →
  from_records project table_name data1 st st' →
  from_records project table_name data st st'.
Proof.
  intros Hsub H k row Hk.
  destruct (H k row Hk) as [?|(rec & Hin & -> & ->)]; [by left|].
  right. exists rec. auto.
Qed.

Lemma elem_of_to_minibatches (data batch : list WriteRecord) (rec : WriteRecord) :
  batch ∈ _to_minibatches data → rec ∈ batch → rec ∈ data.
Proof.
  intros Hb Hrec. unfold _to_minibatches in Hb.
  rewrite <- (to_minibatches_from_concat 49 data).
  by eapply elem_of_concat.
Qed.

Lemma online_write_batch_from_records project table_name data progress w :
  from_records project table_name data (store w)
    (store (online_write_batch project table_name data progress w).1).
Proof.
  unfold online_write_batch.
  pose proof (pool_map_preserves
    (fun b => _write_minibatch project table_name b progress)
    (fun w w' => from_records project table_name data (store w) (store w'))
    (fun w => from_records_refl project table_name data (store w))
    (fun w1 w2 w3 => from_records_trans project table_name data _ _ _)
    (_to_minibatches data)) as H.
  specialize (H (fun b w Hb =>
    from_records_mono project table_name b data _ _
      (fun rec Hrec => elem_of_to_minibatches data b rec Hb Hrec)
      (write_minibatch_from_records project table_name b progress w)) w).
  by destruct (pool_map _ _ w) as [w' rs].
Qed.

(** The rows of the store keep aware timestamps from one batch to the
    next. *)
Lemma online_write_batch_rows_wf project table_name data progress w :
  (∀ k r, store w !! k = Some r → row_wf r) →
  ∀ k r,
    store (online_write_batch project table_name data progress w).1 !! k
      = Some r →
    row_wf r.
Proof.
  intros Hwf k r Hk.
  destruct (online_write_batch_from_records project table_name data progress
              w k r Hk) as [Hold|(rec & _ & _ & ->)].
  - by eapply Hwf.
  - apply persist_wf.
Qed.

Lemma store_le_refl (st : gmap RowKey StoredRow) : store_le st st.
Proof. intros k r Hk. exists r. split; [done|lia]. Qed.

Lemma store_le_trans (st1 st2 st3 : gmap RowKey StoredRow) :
  store_le st1 st2 → store_le st2 st3 → store_le st1 st3.
Proof.
  intros H12 H23 k r Hk.
  destruct (H12 k r Hk) as (r2 & Hk2 & Hle2).
  destruct (H23 k r2 Hk2) as (r3 & Hk3 & Hle3).
  exists r3. split; [done|lia].
Qed.

Lemma online_write_batch_store_le project table_name data progress w :
  (∀ k r, store w !! k = Some r → row_wf r) →
  store_le (store w)
    (store (online_write_batch project table_name data progress w).1).
Proof.
  intros Hwf. unfold online_write_batch.
  pose (R := fun w w' : world =>
          (∀ k r, store w !! k = Some r → row_wf r) →
          (∀ k r, store w' !! k = Some r → row_wf r) ∧
          store_le (store w) (store w')).
  assert (Hrefl : ∀ w, R w w) by (intros w0 H0; split; [done|apply store_le_refl]).
  assert (Htrans : ∀ w1 w2 w3, R w1 w2 → R w2 w3 → R w1 w3).
  { intros w1 w2 w3 H12 H23 H1. destruct (H12 H1) as [H2 Hle12].
    destruct (H23 H2) as [H3 Hle23]. split; [done|]. by eapply store_le_trans. }
  pose proof (pool_map_preserves
    (fun b => _write_minibatch project table_name b progress) R Hrefl Htrans
    (_to_minibatches data)) as H.
  specialize (H (fun b w0 _ H0 =>
    conj (write_minibatch_rows_wf project table_name b progress w0 H0)
         (write_minibatch_store_le project table_name b progress w0 H0)) w Hwf).
  destruct (pool_map _ _ w) as [w' rs]. by destruct H.
Qed.

(** X4. [online_write_batch] changes no row other than those under
    the keys of its records; in particular it never touches a row of
    another table or project, and never removes a row. *)
Theorem online_write_batch_frame project table_name (data : list WriteRecord)
    progress w k :
  (∀ rec, rec ∈ data → row_key project table_name rec ≠ k) →
  store (online_write_batch project table_name data progress w).1 !! k
  = store w !! k.
Proof.
  intros Hk. unfold online_write_batch.
  pose proof (pool_map_preserves
    (fun b => _write_minibatch project table_name b progress)
    (fun w w' => store w' !! k = store w !! k)
    (fun w => eq_refl)
    (fun w1 w2 w3 H12 H23 => eq_trans H23 H12)
    (_to_minibatches data)) as H.
  specialize (H (fun b w0 Hb =>
    write_minibatch_frame project table_name b progress w0 k
      (fun rec Hrec => Hk rec (elem_of_to_minibatches data b rec Hb Hrec))) w).
  by destruct (pool_map _ _ w) as [w' rs].
Qed.

End WriteFacts.

Section Guard.
Context `{Ext : Externals}.

(** A store that raises nothing: the first attempt is the only one. *)
Lemma write_minibatch_no_fault project table_name (data : list WriteRecord)
    progress w :
  faults w = [] →
  (∀ k r, store w !! k = Some r → row_wf r) →
  Forall (fun rec => record_plain_or_aware rec = true) data →
  let written := not_skipped project table_name (store w) data in
  _write_minibatch project table_name data progress w
  = ({| store := commit_puts (puts_of project table_name written) (store w);
        progress_log :=
          progress_log w ++
          (if progress then replicate (length written) 1 else []);
        faults := [];
        txn_log := txn_log w ++ [Committed (length written)] |}, Ok ()).
Proof.
  intros Hf Hwf Hrec written.
  pose proof (attempt_spec project table_name progress data w Hwf Hrec) as Hspec.
  cbn zeta in Hspec. rewrite Hf in Hspec. cbn [hd raised_by] in Hspec.
  destruct Hspec as (Hres & Hstore & Hprog).
  destruct (attempt_outcome project table_name progress data w)
    as (Hfaults & o & Hlog & Ho).
  unfold _write_minibatch, num_retries_on_conflict. cbn [seq retry_loop].
  destruct (attempt project table_name progress data w) as [w1 r].
  cbn [fst snd] in *. subst r o. rewrite Hf in Hfaults.
  destruct w1 as [st1 log1 f1 tl1]. cbn [store progress_log faults txn_log] in *.
  by subst.
Qed.

(** A call that returns has committed one transaction that started from
    the rows as they were before the call. *)
Lemma retry_loop_ok project table_name progress (data : list WriteRecord) m :
  ∀ a w,
  (a + m = num_retries_on_conflict)%nat → (1 <= m)%nat →
  (∀ k r, store w !! k = Some r → row_wf r) →
  Forall (fun rec => record_plain_or_aware rec = true) data →
  (retry_loop project table_name progress data (seq a m) w).2 = Ok () →
  store (retry_loop project table_name progress data (seq a m) w).1
  = commit_puts
      (puts_of project table_name
         (not_skipped project table_name (store w) data))
      (store w).
Proof.
  induction m as [|m IH]; intros a w Ham Hm Hwf Hrec; [lia|].
  cbn [seq retry_loop].
  pose proof (attempt_spec project table_name progress data w Hwf Hrec) as Hspec.
  cbn zeta in Hspec.
  destruct (attempt_outcome project table_name progress data w)
    as (_ & o & _ & Ho).
  destruct (attempt project table_name progress data w) as [w1 [cnt|e]];
    cbn [fst snd] in *.
  - intros _. destruct (raised_by _ _); [done|]. by destruct Hspec as (_ & ? & _).
  - destruct Ho as [_ Hsame]. destruct e; try done.
    unfold num_retries_on_conflict in *.
    destruct (Nat.eqb_spec a (3 - 1)) as [|Hna]; [done|].
    intros Hok. rewrite (IH (S a) w1); [by rewrite Hsame|lia|lia| |done|done].
    intros k r. rewrite Hsame. apply Hwf.
Qed.


End Guard.


(** The scenario of the design document: a write at 2021-01-01T00:00:00Z
    followed by one at 2020-12-31T23:59:00Z leaves the first. *)
Example older_write_is_dropped :
  event_ts <$>
    store (online_write_batch "p" "t"
             [sample_record 1609459140000000 (Some 0)] true
             (online_write_batch "p" "t"
                [sample_record 1609459200000000 (Some 0)] true
                (empty_world [])).1).1
      !! row_key "p" "t" record_naive
  = Some (mk_datetime 1609459200000000 (Some (Offset 0))).
Proof. vm_compute. reflexivity. Qed.

(** Both in one minibatch: neither read sees the other's put, so both
    rows are put and the one put last stays. *)
Example one_transaction_keeps_the_last_put :
  event_ts <$>
    store (online_write_batch "p" "t"
             [sample_record 1609459200000000 (Some 0);
              sample_record 1609459140000000 (Some 0)] true
             (empty_world [])).1
      !! row_key "p" "t" record_naive
  = Some (mk_datetime 1609459140000000 (Some (Offset 0))).
Proof. vm_compute. reflexivity. Qed.

Lemma to_minibatches_singleton {A} (x : A) : _to_minibatches [x] = [[x]].
Proof.
  unfold _to_minibatches. rewrite to_minibatches_from_cons. cbn [take drop].
  by rewrite to_minibatches_from_nil.
Qed.

(** ** Timestamps of the rows written *)

Section Timestamps.
Context `{Ext : Externals}.

(** One record in a batch of its own is one task in one chunk. *)
Lemma online_write_batch_singleton project table_name (rec : WriteRecord)
    progress w :
  online_write_batch project table_name [rec] progress w
  = match _write_minibatch project table_name [rec] progress w with
    | (w1, Ok _) => (w1, Ok ())
    | (w1, Raise e) => (w1, Raise e)
    end.
Proof.
  unfold online_write_batch, pool_map. rewrite to_minibatches_singleton.
  change (pool_chunksize (length [[rec]])) with 1%nat.
  rewrite to_minibatches_from_cons. cbn [take drop].
  rewrite to_minibatches_from_nil. cbn [run_chunks mapstar].
  by destruct (_write_minibatch project table_name [rec] progress w)
    as [w1 [[]|e]].
Qed.


End Timestamps.


(** The row written for 02:00 at +02:00 holds 00:00 UTC. *)
Example offset_is_normalized :
  event_ts <$>
    store (online_write_batch "p" "t" [record_utc_plus_2] true
             (empty_world [])).1
      !! row_key "p" "t" record_utc_plus_2
  = Some (mk_datetime 0 (Some (Offset 0))).
Proof. vm_compute. reflexivity. Qed.

(** ** The progress callback *)

Section Progress.
Context `{Ext : Externals}.

(** C10. With no records the splitter yields no batch, so no transaction is
    opened, no row is read or written and the callback is not called: the
    world is left as it was. *)
Theorem online_write_batch_empty project table_name progress w :
  _to_minibatches (@nil WriteRecord) = [] ∧
  online_write_batch project table_name [] progress w = (w, Ok ()).
Proof.
  assert (H : _to_minibatches (@nil WriteRecord) = [])
    by apply to_minibatches_from_nil.
  split; [exact H|]. unfold online_write_batch, pool_map. rewrite H.
  cbn [length]. by rewrite to_minibatches_from_nil.
Qed.

End Progress.

(** C8, at one record written while the store reports a conflict at the
    first commit: the first attempt calls the callback and is rolled back,
    the second calls it again and commits. One row is written, the
    callback has been called twice. *)
Theorem progress_counts_rolled_back_rows :
  (online_write_batch "p" "t" [record_naive] true world_conflict_once).2
    = Ok () ∧
  txn_log (online_write_batch "p" "t" [record_naive] true world_conflict_once).1
    = [Aborted Conflict; Committed 1] ∧
  size (store
    (online_write_batch "p" "t" [record_naive] true world_conflict_once).1)
    = 1%nat ∧
  progress_log
    (online_write_batch "p" "t" [record_naive] true world_conflict_once).1
    = [1; 1].
Proof. vm_compute. done. Qed.

(** ** Retries *)

Lemma hd_drop {A} (d : A) (k : nat) (l : list A) :
  hd d (drop k l) = nth k l d.
Proof.
  revert l. induction k as [|k IH]; intros [|x l]; cbn; try done.
Qed.

Lemma tl_drop {A} (k : nat) (l : list A) : tl (drop k l) = drop (S k) l.
Proof.
  revert l. induction k as [|k IH]; intros [|x l]; cbn; done.
Qed.

Lemma commits_app (h1 h2 : list txn_outcome) :
  commits (h1 ++ h2) = (commits h1 + commits h2)%nat.
Proof.
  induction h1 as [|[n|e] h1 IH]; cbn [commits app]; lia.
Qed.

Section Retry.
Context `{Ext : Externals}.

(** A call that returns has committed exactly one transaction. *)
Lemma retry_loop_commits project table_name progress (data : list WriteRecord) m :
  ∀ a w, (a + m = num_retries_on_conflict)%nat → (1 <= m)%nat →
  ∃ h, txn_log (retry_loop project table_name progress data (seq a m) w).1
         = txn_log w ++ h ∧
       ((retry_loop project table_name progress data (seq a m) w).2 = Ok () →
        commits h = 1%nat).
Proof.
  induction m as [|m IH]; intros a w Ham Hm; [lia|].
  cbn [seq retry_loop].
  destruct (attempt_outcome project table_name progress data w)
    as (_ & o & Hlog & Ho).
  destruct (attempt project table_name progress data w) as [w1 [cnt|e]];
    cbn [fst snd] in *.
  { subst o. by exists [Committed cnt]. }
  destruct Ho as [-> _].
  assert (Hstop : ∃ h, txn_log w1 = txn_log w ++ h ∧
                       (@Raise unit e = Ok () → commits h = 1%nat))
    by (by exists [Aborted e]).
  destruct e; try exact Hstop.
  unfold num_retries_on_conflict in *.
  destruct (Nat.eqb_spec a (3 - 1)) as [|Hna]; [exact Hstop|].
  destruct (IH (S a) w1) as (h & Hlog' & Hc); [lia|lia|].
  exists (Aborted Conflict :: h). rewrite Hlog', Hlog, <- app_assoc.
  split; [done|]. exact Hc.
Qed.

Lemma write_minibatch_commits project table_name (data : list WriteRecord)
    progress w :
  ∃ h, txn_log (_write_minibatch project table_name data progress w).1
         = txn_log w ++ h ∧
       ((_write_minibatch project table_name data progress w).2 = Ok () →
        commits h = 1%nat).
Proof.
  apply (retry_loop_commits project table_name progress data 3 0);
    unfold num_retries_on_conflict; lia.
Qed.

(** A chunk that returns has committed one transaction per minibatch. *)
Lemma mapstar_commits project table_name progress
    (chunk : list (list WriteRecord)) :
  ∀ w, ∃ h,
    txn_log (mapstar (fun b => _write_minibatch project table_name b progress)
               chunk w).1 = txn_log w ++ h ∧
    ((mapstar (fun b => _write_minibatch project table_name b progress)
        chunk w).2 = Ok () →
     commits h = length chunk).
Proof.
  induction chunk as [|b rest IH]; intros w; cbn [mapstar].
  - exists []. by rewrite app_nil_r.
  - destruct (write_minibatch_commits project table_name b progress w)
      as (h & Hlog & Hc).
    destruct (_write_minibatch project table_name b progress w) as [w1 [[]|e]];
      cbn [fst snd] in *.
    + destruct (IH w1) as (h' & Hlog' & Hc').
      exists (h ++ h'). rewrite Hlog', Hlog, <- app_assoc. split; [done|].
      intros Hok. rewrite commits_app, Hc, Hc' by done. done.
    + exists h. split; [done|]. done.
Qed.

Lemma run_chunks_commits project table_name progress
    (chunks : list (list (list WriteRecord))) :
  ∀ w, ∃ h,
    txn_log (run_chunks (fun b => _write_minibatch project table_name b progress)
               chunks w).1 = txn_log w ++ h ∧
    (first_error
       (run_chunks (fun b => _write_minibatch project table_name b progress)
          chunks w).2 = Ok () →
     commits h = length (concat chunks)).
Proof.
  induction chunks as [|chunk rest IH]; intros w; cbn [run_chunks].
  - exists []. by rewrite app_nil_r.
  - destruct (mapstar_commits project table_name progress chunk w)
      as (h & Hlog & Hc).
    destruct (mapstar _ chunk w) as [w1 r]. cbn [fst snd] in *.
    destruct (IH w1) as (h' & Hlog' & Hc').
    destruct (run_chunks _ rest w1) as [w2 rs]. cbn [fst snd] in *.
    exists (h ++ h'). rewrite Hlog', Hlog, <- app_assoc. split; [done|].
    cbn [first_error concat]. destruct r as [[]|e]; [|done].
    intros Hok. rewrite commits_app, length_app, Hc, Hc' by done. done.
Qed.


End Retry.


Example three_conflicts_fail :
  (online_write_batch "p" "t" [record_naive] true
     (empty_world [CommitFails Conflict; GetFails 0 Conflict;
                   CommitFails Conflict])).2 = Raise Conflict ∧
  txn_log
    (online_write_batch "p" "t" [record_naive] true
       (empty_world [CommitFails Conflict; GetFails 0 Conflict;
                     CommitFails Conflict])).1
  = [Aborted Conflict; Aborted Conflict; Aborted Conflict].
Proof. vm_compute. done. Qed.

Example other_error_is_not_retried :
  (online_write_batch "p" "t" [record_naive] true
     (empty_world [CommitFails (RemoteError "unavailable")])).2
  = Raise (RemoteError "unavailable") ∧
  txn_log
    (online_write_batch "p" "t" [record_naive] true
       (empty_world [CommitFails (RemoteError "unavailable")])).1
  = [Aborted (RemoteError "unavailable")].
Proof. vm_compute. done. Qed.

(** ** Entity identifiers *)

Lemma hex_length (b : bytes) : String.length (hex b) = (2 * length b)%nat.
Proof. induction b as [|x b IH]; cbn [hex String.length length]; lia. Qed.

Section Identifier.
Context `{Ext : Externals}.

(** C6. The identifier is the hexadecimal rendering of the hash of the
    key's serialization, two digits per byte of the hash (32 digits for the
    16 bytes mmh3 returns), and so two keys with the same serialization
    have the same identifier. *)
Theorem entity_id_of_serialization (k1 k2 : EntityKeyProto) :
  serialize_entity_key k1 = serialize_entity_key k2 →
  compute_datastore_entity_id k1
    = hex (mmh3_hash_bytes (serialize_entity_key k1)) ∧
  String.length (compute_datastore_entity_id k1)
    = (2 * length (mmh3_hash_bytes (serialize_entity_key k1)))%nat ∧
  ((∀ b, length (mmh3_hash_bytes b) = 16%nat) →
   String.length (compute_datastore_entity_id k1) = 32%nat) ∧
  compute_datastore_entity_id k1 = compute_datastore_entity_id k2.
Proof.
  intros Hser. unfold compute_datastore_entity_id.
  split; [done|]. split; [apply hex_length|].
  split; [|by rewrite Hser].
  intros Hlen. by rewrite hex_length, Hlen.
Qed.

End Identifier.

Lemma entity_id_of_serialization_witness :
  compute_datastore_entity_id (Ext := sample_externals) [Byte.x01; Byte.xff]
    = "01ff0000000000000000000000000000" ∧
  String.length
    (compute_datastore_entity_id (Ext := sample_externals) [Byte.x01; Byte.xff])
    = 32%nat.
Proof.
  destruct (entity_id_of_serialization (Ext := sample_externals)
              [Byte.x01; Byte.xff] [Byte.x01; Byte.xff] eq_refl)
    as (Hid & _ & Hlen & _).
  split; [rewrite Hid; reflexivity|].
  apply Hlen. intros b. unfold mmh3_hash_bytes, sample_externals, sample_hash.
  rewrite length_take, length_app, length_replicate. lia.
Defined.

(** ** Online reads *)

Section Read.
Context `{Ext : Externals}.

Lemma parse_items_lookup (items : list (string * bytes)) :
  ∀ (acc res : gmap string ValueProto),
  NoDup items.*1 →
  parse_items items acc = Ok res →
  ∀ feature_name,
    res !! feature_name =
    match (list_to_map items : gmap string bytes) !! feature_name with
    | Some value_bin => Value_ParseFromString value_bin
    | None => acc !! feature_name
    end.
Proof.
  induction items as [|[k0 b0] rest IH]; intros acc res Hnd; cbn [parse_items].
  - intros [= <-] feature_name.
    change (list_to_map []) with (∅ : gmap string bytes).
    by rewrite lookup_empty.
  - destruct (Value_ParseFromString b0) as [v0|] eqn:Hparse; [|done].
    intros Hrest feature_name.
    apply NoDup_cons in Hnd as [Hfresh Hnd].
    rewrite (IH _ _ Hnd Hrest). cbn [list_to_map foldr].
    destruct (decide (feature_name = k0)) as [->|Hne].
    + rewrite lookup_insert_eq.
      rewrite (not_elem_of_list_to_map_1 (M := gmap string) rest k0 Hfresh).
      by rewrite lookup_insert_eq.
    + rewrite !lookup_insert_ne by done. done.
Qed.

Lemma parse_items_total (items : list (string * bytes)) :
  ∀ acc, Forall (λ kb, is_Some (Value_ParseFromString kb.2)) items →
  ∃ res, parse_items items acc = Ok res.
Proof.
  induction items as [|[k0 b0] rest IH]; intros acc Hall; cbn [parse_items].
  - eauto.
  - apply Forall_cons in Hall as [[v0 Hv0] Hall]. cbn in Hv0. rewrite Hv0.
    by apply IH.
Qed.

(** The feature map read from a row: each name of the row, with its value
    decoded. *)
Lemma parse_values (vals : gmap string bytes) :
  (∀ feature_name value_bin, vals !! feature_name = Some value_bin →
     is_Some (Value_ParseFromString value_bin)) →
  ∃ res, parse_items (map_to_list vals) ∅ = Ok res ∧
    ∀ feature_name,
      res !! feature_name = vals !! feature_name ≫= Value_ParseFromString.
Proof.
  intros Hdec.
  destruct (parse_items_total (map_to_list vals) ∅) as [res Hres].
  { apply Forall_forall. intros [k b] Hin.
    apply elem_of_map_to_list in Hin. cbn. eauto. }
  exists res. split; [done|]. intros feature_name.
  rewrite (parse_items_lookup _ _ _ (NoDup_fst_map_to_list vals) Hres).
  rewrite list_to_map_to_list, lookup_empty.
  by destruct (vals !! feature_name).
Qed.

Lemma online_read_loop_spec st project table_name entity_keys :
  decodable st →
  ∀ acc, ∃ out,
    online_read_loop st project table_name entity_keys acc = Ok (acc ++ out) ∧
    Forall2 (read_answer st project table_name) entity_keys out.
Proof.
  intros Hdec.
  induction entity_keys as [|entity_key rest IH]; intros acc;
    cbn [online_read_loop].
  - exists []. by rewrite app_nil_r.
  - destruct (st !! (project, table_name, compute_datastore_entity_id entity_key))
      as [value|] eqn:Hrow.
    + destruct (parse_values (values value)) as (res & -> & Hres).
      { intros ? ?. by apply Hdec with (1 := Hrow). }
      cbn [mbind result_bind].
      destruct (IH (acc ++ [(Some (event_ts value), Some res)])) as (out & -> & Hout).
      exists ((Some (event_ts value), Some res) :: out).
      rewrite <- app_assoc. split; [done|].
      constructor; [|done]. unfold read_answer. rewrite Hrow. eauto.
    + destruct (IH (acc ++ [(None, None)])) as (out & -> & Hout).
      exists ((None, None) :: out). rewrite <- app_assoc. split; [done|].
      constructor; [|done]. unfold read_answer. by rewrite Hrow.
Qed.

(** C5. [online_read] returns one answer per key, in the order of the keys:
    [(None, None)] when no row is stored under the key's identifier, and
    otherwise the row's event timestamp with the map that gives each
    feature name of the row its decoded value. *)
Theorem online_read_answers st project table_name
    (entity_keys : list EntityKeyProto) :
  decodable st →
  ∃ out, online_read st project table_name entity_keys = Ok out ∧
    length out = length entity_keys ∧
    ∀ i entity_key, entity_keys !! i = Some entity_key →
      ∃ answer, out !! i = Some answer ∧
        read_answer st project table_name entity_key answer.
Proof.
  intros Hdec. unfold online_read.
  destruct (online_read_loop_spec st project table_name entity_keys Hdec [])
    as (out & Hout & Hall).
  exists out. split; [done|].
  split; [symmetry; by eapply Forall2_length|].
  intros i entity_key Hi.
  destruct (Forall2_lookup_l _ _ _ _ _ Hall Hi) as (answer & Ho & Ha). eauto.
Qed.

End Read.

Example online_read_hit_and_miss :
  online_read (store_of record_naive) "p" "t" sample_keys
  = Ok [(Some (mk_datetime 5 (Some (Offset 0))), Some ∅); (None, None)].
Proof. vm_compute. reflexivity. Qed.

Lemma online_read_answers_witness :
  ∃ out,
    online_read (store_of record_naive) "p" "t" sample_keys = Ok out ∧
    length out = length sample_keys ∧
    ∀ i entity_key, sample_keys !! i = Some entity_key →
      ∃ answer, out !! i = Some answer ∧
        read_answer (store_of record_naive) "p" "t" entity_key answer.
Proof.
  apply (online_read_answers (store_of record_naive) "p" "t" sample_keys).
  intros k row feature_name value_bin _ _. by exists value_bin.
Defined.

(** ** The query text *)

Lemma append_assoc (a b c : string) : (a +:+ b) +:+ c = a +:+ b +:+ c.
Proof.
  induction a as [|ch a IH]; [done|].
  change (String ch ((a +:+ b) +:+ c) = String ch (a +:+ b +:+ c)).
  by f_equal.
Qed.

Lemma append_empty_r (a : string) : a +:+ "" = a.
Proof.
  induction a as [|ch a IH]; [done|].
  change (String ch (a +:+ "") = String ch a). by f_equal.
Qed.

Lemma occurs_in_refl (s : string) : occurs_in s s.
Proof. exists "", "". by rewrite append_empty_r. Qed.

Lemma occurs_in_head (s post : string) : occurs_in s (s +:+ post).
Proof. by exists "", post. Qed.

Lemma occurs_in_tail (s a t : string) : occurs_in s t → occurs_in s (a +:+ t).
Proof.
  intros (pre & post & ->). exists (a +:+ pre), post. by rewrite append_assoc.
Qed.

Lemma occurs_in_front (s t b : string) : occurs_in s t → occurs_in s (t +:+ b).
Proof.
  intros (pre & post & ->). exists pre, (post +:+ b).
  by rewrite !append_assoc.
Qed.

Lemma occurs_in_trans (s t u : string) :
  occurs_in s t → occurs_in t u → occurs_in s u.
Proof.
  intros Hst (pre & post & ->).
  by apply occurs_in_tail, occurs_in_front.
Qed.

Create HintDb occurs.
#[local] Hint Resolve occurs_in_refl occurs_in_head occurs_in_tail : occurs.

(** Walk down a concatenation to the piece that hypothesis [H] speaks of. *)
Ltac walk_to H :=
  first [ exact H
        | apply occurs_in_front; exact H
        | apply occurs_in_tail; walk_to H ].

(** Every item of a [for] block leaves its rendering in the output. *)
Lemma jinja_for_occurs {A} (body : A → bool → string) (items : list A) i x :
  items !! i = Some x → ∃ last, occurs_in (body x last) (jinja_for body items).
Proof.
  revert i. induction items as [|y rest IH]; intros [|i] Hi; try done.
  - injection Hi as ->. eexists. cbn [jinja_for]. apply occurs_in_head.
  - destruct (IH i Hi) as [last Hocc]. exists last. cbn [jinja_for].
    by apply occurs_in_tail.
Qed.

Section QueryFacts.
Context `{Ext : Externals}.
Variables (min_timestamp max_timestamp : datetime).

Lemma source_rows_in_union_features featureview :
  occurs_in (source_rows min_timestamp max_timestamp featureview)
            (union_features min_timestamp max_timestamp featureview).
Proof. unfold union_features. auto 40 with occurs. Qed.

Lemma source_rows_in_joined featureview :
  occurs_in (source_rows min_timestamp max_timestamp featureview)
            (joined min_timestamp max_timestamp featureview).
Proof. unfold joined. auto 60 with occurs. Qed.

Lemma feature_if_in_joined featureview j feature :
  features featureview !! j = Some feature →
  occurs_in (feature_if featureview feature)
            (joined min_timestamp max_timestamp featureview).
Proof.
  intros Hj. unfold joined.
  destruct (jinja_for_occurs
    (fun feature last => "
  " +:+ feature_if featureview feature +:+ unless_last last +:+ "
  ") _ _ _ Hj) as [last Hocc].
  assert (Hpiece : occurs_in (feature_if featureview feature)
    (jinja_for (fun feature last => "
  " +:+ feature_if featureview feature +:+ unless_last last +:+ "
  ") (features featureview))).
  { eapply occurs_in_trans; [|exact Hocc]. auto with occurs. }
  walk_to Hpiece.
Qed.

Lemma block_in_query contexts left_table_query_string i featureview :
  contexts !! i = Some featureview →
  ∃ last,
    occurs_in (featureview_block min_timestamp max_timestamp featureview last)
      (build_point_in_time_query min_timestamp max_timestamp contexts
         left_table_query_string).
Proof.
  intros Hi.
  destruct (jinja_for_occurs
              (featureview_block min_timestamp max_timestamp) _ _ _ Hi)
    as [last Hocc].
  exists last. unfold build_point_in_time_query. walk_to Hocc.
Qed.

End QueryFacts.

Section Ttl.
Context `{Ext : Externals}.
Variables (min_timestamp max_timestamp : datetime).


End Ttl.


(** ** Errors of a historical retrieval *)

Section HistoricalFacts.
Context `{Ext : Externals}.

(** A view whose source is not a BigQuery source stops the construction of
    the query context. *)
Lemma query_context_loop_unsupported items :
  ∀ query_context feature_view feats kind,
  (feature_view, feats) ∈ items →
  fv_input feature_view = SrcOther kind →
  query_context_loop items query_context = Raise AssertionError.
Proof.
  induction items as [|[fv fs] rest IH];
    intros query_context feature_view feats kind Hin Hsrc.
  - by apply elem_of_nil in Hin.
  - cbn [query_context_loop].
    apply elem_of_cons in Hin as [[= <- <-]|Hin].
    + by rewrite Hsrc.
    + destruct (fv_input fv); [|done]. by eapply IH.
Qed.

(** An entity dataset that is neither a string nor a DataFrame is refused
    before anything is sent to BigQuery. *)
Lemma get_historical_features_bad_entity_df env config_project feature_views
    feature_refs type_repr :
  get_historical_features env config_project feature_views feature_refs
    (EntityDfOther type_repr)
  = ([], Raise (entity_df_error type_repr)).
Proof. done. Qed.

(** With a query string nothing is sent to BigQuery, whatever the outcome. *)
Lemma get_historical_features_str_sends_nothing env config_project
    feature_views feature_refs sql :
  (get_historical_features env config_project feature_views feature_refs
     (EntityDfStr sql)).1 = [].
Proof. done. Qed.

(** With a DataFrame the upload comes first, whatever the outcome. *)
Lemma get_historical_features_pandas_uploads env config_project
    feature_views feature_refs df :
  (get_historical_features env config_project feature_views feature_refs
     (EntityDfPandas df)).1
  = (_upload_entity_df_into_bigquery env config_project df).1.
Proof. done. Qed.

End HistoricalFacts.

(** C7, at a DataFrame of entities and a feature view read from a file: the
    DataFrame is uploaded to BigQuery, and only then is the view's source
    refused. *)
Theorem unsupported_source_raises_after_upload :
  get_historical_features sample_env "feast" [file_view] ["rating"]
    (EntityDfPandas sample_df)
  = ([CreateDataset "proj.feast_feast";
      LoadTableFromDataframe "proj.feast_feast.entity_df_1609459200" sample_df;
      JobResult "proj.feast_feast.entity_df_1609459200";
      GetTable "proj.feast_feast.entity_df_1609459200";
      UpdateTable "proj.feast_feast.entity_df_1609459200"
        (mk_datetime 1609461000000000 None)],
     Raise AssertionError).
Proof. vm_compute. reflexivity. Qed.

(** ** Table administration *)

Lemma delete_entities_lookup (entities : list (RowKey * StoredRow)) :
  ∀ (rows : gmap RowKey StoredRow) k,
  delete_entities entities rows !! k =
  if decide (k ∈ entities.*1) then None else rows !! k.
Proof.
  induction entities as [|e l IH]; intros rows k; cbn.
  - case_decide as Hin; [by apply elem_of_nil in Hin|done].
  - change (foldl _ (delete e.1 rows) l) with (delete_entities l (delete e.1 rows)).
    rewrite IH.
    destruct (decide (k ∈ l.*1)) as [Hl|Hl],
             (decide (k ∈ e.1 :: l.*1)) as [Hel|Hel]; try done.
    + exfalso. apply Hel. by right.
    + apply elem_of_cons in Hel as [->|?]; [apply lookup_delete_eq|done].
    + apply lookup_delete_ne. intros <-. apply Hel. by left.
Qed.

Lemma delete_entities_size (entities : list (RowKey * StoredRow)) :
  ∀ rows : gmap RowKey StoredRow,
  NoDup entities.*1 →
  (∀ e, e ∈ entities → is_Some (rows !! e.1)) →
  size (delete_entities entities rows) = (size rows - length entities)%nat.
Proof.
  induction entities as [|e l IH]; intros rows Hnd Hin; cbn; [lia|].
  change (foldl _ (delete e.1 rows) l) with (delete_entities l (delete e.1 rows)).
  apply NoDup_cons in Hnd as [Hfresh Hnd].
  rewrite IH; [|done|].
  - rewrite map_size_delete_Some by (apply Hin; left). lia.
  - intros e' He'. rewrite lookup_delete_ne; [apply Hin; by right|].
    intros Heq. apply Hfresh. rewrite Heq. apply list_elem_of_fmap. eauto.
Qed.

Lemma fetch_rows_elem (limit : nat) (key : string * string)
    (rows : gmap RowKey StoredRow) (e : RowKey * StoredRow) :
  e ∈ fetch_rows limit key rows → rows !! e.1 = Some e.2 ∧ e.1.1 = key.
Proof.
  unfold fetch_rows. intros Hel. apply elem_of_take in Hel as (i & Hel & _).
  apply list_elem_of_lookup_2 in Hel. destruct e as [k r].
  by apply elem_of_map_to_list, map_lookup_filter_Some in Hel.
Qed.

Lemma fetch_rows_NoDup (limit : nat) (key : string * string)
    (rows : gmap RowKey StoredRow) :
  NoDup (fetch_rows limit key rows).*1.
Proof.
  unfold fetch_rows. rewrite fmap_take.
  eapply sublist_NoDup; [|apply sublist_take]. apply NoDup_fst_map_to_list.
Qed.

Lemma fetch_rows_length (limit : nat) (key : string * string)
    (rows : gmap RowKey StoredRow) :
  length (fetch_rows limit key rows)
  = (limit `min` size (filter (fun kv => kv.1.1 = key) rows))%nat.
Proof. unfold fetch_rows. by rewrite length_take, length_map_to_list. Qed.

(** What is left after [_delete_all_values], and what it costs. *)
Lemma delete_all_values_spec (rows : gmap RowKey StoredRow)
    (key : string * string) :
  (∀ k, (_delete_all_values rows key).1 !! k =
        if decide (k.1 = key) then None else rows !! k) ∧
  (_delete_all_values rows key).2 =
    S ((size (filter (fun kv => kv.1.1 = key) rows) + 999) / 1000)%nat.
Proof.
  funelim (_delete_all_values rows key);
    repeat match goal with
           | H : sigmaI _ _ _ = sigmaI _ _ _ |- _ => clear H
           end;
    unfold RowKey in *.
  - match goal with E : fetch_rows _ _ _ = [] |- _ => rename E into Hfetch end.
    assert (Hempty : filter (fun kv : string * string * string * StoredRow => kv.1.1 = key0) rows = ∅).
    { apply map_to_list_empty_iff. unfold fetch_rows in Hfetch.
      destruct (map_to_list _) as [|x l]; [done|discriminate]. }
    cbn [fst snd]. split.
    + intros k. case_decide as Hk; [|done].
      destruct (rows !! k) as [r|] eqn:Hr; [|done].
      assert (filter (fun kv : string * string * string * StoredRow => kv.1.1 = key0) rows !! k
              = Some r) as Hf by (by apply map_lookup_filter_Some).
      by rewrite Hempty, lookup_empty in Hf.
    + by rewrite Hempty, map_size_empty.
  - match goal with
    | IH : (∀ k, (_delete_all_values ?r2 _).1 !! k = _) ∧ _ |- _ =>
        destruct IH as [IHrows IHq]; set (rows2 := r2) in *
    end.
    match goal with
    | E : fetch_rows _ _ _ = ?l |- _ =>
        rename E into Hfetch; set (fetched := l) in *
    end.
    destruct (_delete_all_values rows2 key0) as [rows' queries].
    cbn [fst snd] in *. split.
    + intros k. rewrite IHrows. case_decide as Hk; [done|].
      unfold rows2. rewrite delete_entities_lookup.
      case_decide as Hin; [|done]. exfalso. apply Hk.
      apply list_elem_of_fmap in Hin as (e & -> & He).
      rewrite <- Hfetch in He. by apply fetch_rows_elem in He as [_ ?].
    + rewrite IHq. f_equal.
      match goal with
      | |- S ((?a + 999) `div` 1000) = ((?b + 999) `div` 1000)%nat =>
          set (n2 := a); set (n := b)
      end.
      assert (Hcomm : ∀ l (m : gmap (string * string * string) StoredRow),
        filter (fun kv : string * string * string * StoredRow => kv.1.1 = key0)
               (delete_entities l m)
        = delete_entities l
            (filter (fun kv : string * string * string * StoredRow =>
                       kv.1.1 = key0) m)).
      { induction l as [|x l IHl]; intros m; [done|]. cbn.
        change (foldl _ (delete x.1 ?m0) l)
          with (delete_entities l (delete x.1 m0)).
        by rewrite IHl, map_filter_delete. }
      assert (Hsize : n2 = (n - length fetched)%nat).
      { unfold n2, n, rows2.
        etrans; [apply (f_equal size), Hcomm|].
        apply delete_entities_size.
        - rewrite <- Hfetch. apply fetch_rows_NoDup.
        - intros e He. rewrite <- Hfetch in He.
          apply fetch_rows_elem in He as [Hr Hk]. exists e.2.
          by apply map_lookup_filter_Some. }
      assert (Hlen : length fetched = (1000 `min` n)%nat).
      { unfold n. rewrite <- Hfetch. apply fetch_rows_length. }
      assert (Hpos : (1 <= length fetched)%nat) by (unfold fetched; cbn; lia).
      clearbody n n2. subst n2.
      destruct (decide (1000 <= n)%nat) as [Hbig|Hsmall].
      * replace (length fetched) with 1000%nat by lia.
        replace (n + 999)%nat with ((n - 1000 + 999) + 1 * 1000)%nat by lia.
        rewrite Nat.div_add by lia. lia.
      * replace (n - length fetched)%nat with 0%nat by lia.
        rewrite (Nat.div_small (0 + 999)) by lia.
        apply (Nat.div_unique _ _ 1 (n - 1)%nat); lia.
Qed.

(** X1. [_delete_all_values] removes every row under the table's key
    and no other row, and sends one query per started thousand of such rows
    plus the final query that comes back empty. *)
Theorem delete_all_values_clears_table (rows : gmap RowKey StoredRow)
    (project table_name : string) :
  (∀ document_id,
     (_delete_all_values rows (project, table_name)).1
       !! (project, table_name, document_id) = None) ∧
  (∀ k, k.1 ≠ (project, table_name) →
     (_delete_all_values rows (project, table_name)).1 !! k = rows !! k) ∧
  (_delete_all_values rows (project, table_name)).2 =
    (S ((size (filter (fun kv => kv.1.1 = (project, table_name)) rows) + 999)
        / 1000))%nat.
Proof.
  destruct (delete_all_values_spec rows (project, table_name)) as [Hrows Hq].
  split; [|split; [|exact Hq]].
  - intros document_id. rewrite Hrows. by rewrite decide_True.
  - intros k Hk. rewrite Hrows. by rewrite decide_False.
Qed.

Example delete_all_values_one_row :
  _delete_all_values (store_of record_naive) ("p", "t") = (∅, 2%nat).
Proof. vm_compute. reflexivity. Qed.

Example delete_all_values_other_table :
  size (_delete_all_values (store_of record_naive) ("p", "other")).1 = 1%nat ∧
  (_delete_all_values (store_of record_naive) ("p", "other")).2 = 1%nat.
Proof. vm_compute. done. Qed.

Lemma delete_tables_spec (project : string) (table_names : list string) :
  ∀ ds,
  (∀ k, ds_rows (delete_tables project table_names ds) !! k =
        if decide (k.1.1 = project ∧ k.1.2 ∈ table_names) then None
        else ds_rows ds !! k) ∧
  (∀ p t, ds_tables (delete_tables project table_names ds) !! (p, t) =
          if decide (p = project ∧ t ∈ table_names) then None
          else ds_tables ds !! (p, t)).
Proof.
  induction table_names as [|table_name rest IH]; intros ds; cbn [delete_tables].
  - split; intros; case_decide as H; try done;
      destruct H as [_ H]; by apply elem_of_nil in H.
  - destruct (IH {| ds_tables := delete (project, table_name) (ds_tables ds);
                    ds_rows := (_delete_all_values (ds_rows ds)
                                  (project, table_name)).1 |}) as [IHr IHt].
    destruct (delete_all_values_spec (ds_rows ds) (project, table_name))
      as [Hrows _].
    split.
    + intros [[p t] d]. rewrite IHr. cbn [ds_rows fst snd]. rewrite Hrows.
      cbn [fst snd].
      destruct (decide (p = project ∧ t ∈ rest)) as [[-> Hin]|Hnot].
      * rewrite decide_True; [done|]. split; [done|by right].
      * destruct (decide ((p, t) = (project, table_name))) as [[= -> ->]|Hne].
        -- rewrite decide_True; [done|]. split; [done|by left].
        -- rewrite decide_False; [done|]. intros [-> Hin].
           apply elem_of_cons in Hin as [->|Hin]; [done|]. by apply Hnot.
    + intros p t. rewrite IHt. cbn [ds_tables].
      destruct (decide (p = project ∧ t ∈ rest)) as [[-> Hin]|Hnot].
      * rewrite decide_True; [done|]. split; [done|by right].
      * destruct (decide ((p, t) = (project, table_name))) as [[= -> ->]|Hne].
        -- rewrite lookup_delete_eq. rewrite decide_True; [done|].
           split; [done|by left].
        -- rewrite lookup_delete_ne by done.
           rewrite decide_False; [done|]. intros [-> Hin].
           apply elem_of_cons in Hin as [->|Hin]; [done|]. by apply Hnot.
Qed.

(** X2. [teardown_infra] leaves no row and no Table entity of the
    tables it is given, and leaves every other table of the project, and
    every table of any other project, as it was. *)
Theorem teardown_infra_removes_tables (project : string) (tables : list string)
    (ds : datastore) :
  (∀ table_name document_id, table_name ∈ tables →
     ds_rows (teardown_infra project tables ds)
       !! (project, table_name, document_id) = None ∧
     ds_tables (teardown_infra project tables ds) !! (project, table_name)
       = None) ∧
  (∀ p t document_id, ¬ (p = project ∧ t ∈ tables) →
     ds_rows (teardown_infra project tables ds) !! (p, t, document_id)
       = ds_rows ds !! (p, t, document_id) ∧
     ds_tables (teardown_infra project tables ds) !! (p, t)
       = ds_tables ds !! (p, t)).
Proof.
  unfold teardown_infra.
  destruct (delete_tables_spec project tables ds) as [Hr Ht].
  split.
  - intros table_name document_id Hin. rewrite Hr, Ht. cbn [fst snd].
    by rewrite !decide_True.
  - intros p t document_id Hnot. rewrite Hr, Ht. cbn [fst snd].
    by rewrite !decide_False.
Qed.

Lemma put_tables_spec (project : string) (clock : nat → datetime)
    (table_names : list string) :
  ∀ i ds,
  ds_rows (put_tables project clock i table_names ds) = ds_rows ds ∧
  (∀ p t,
     (¬ (p = project ∧ t ∈ table_names) →
      ds_tables (put_tables project clock i table_names ds) !! (p, t)
        = ds_tables ds !! (p, t)) ∧
     (p = project → t ∈ table_names →
      ∃ j, table_names !! j = Some t ∧
           (∀ j', (j < j')%nat → table_names !! j' ≠ Some t) ∧
           ds_tables (put_tables project clock i table_names ds) !! (p, t)
             = Some (clock (i + j)%nat))).
Proof.
  induction table_names as [|table_name rest IH]; intros i ds; cbn [put_tables].
  - split; [done|]. intros p t. split; [done|].
    intros _ Hin. by apply elem_of_nil in Hin.
  - destruct (IH (S i) {| ds_tables := <[(project, table_name) := clock i]>
                                         (ds_tables ds);
                          ds_rows := ds_rows ds |}) as [IHr IHt].
    split; [exact IHr|]. intros p t. destruct (IHt p t) as [IHout IHin].
    split.
    + intros Hnot. rewrite IHout.
      * cbn [ds_tables]. rewrite lookup_insert_ne; [done|].
        intros [= <- <-]. apply Hnot. split; [done|by left].
      * intros [-> Hin]. apply Hnot. split; [done|by right].
    + intros -> Hin.
      destruct (decide (t ∈ rest)) as [Hrest|Hrest].
      * destruct (IHin eq_refl Hrest) as (j & Hj & Hlast & Hval).
        exists (S j). split; [done|]. split.
        -- intros [|j'] Hlt; [lia|]. cbn. apply Hlast. lia.
        -- rewrite Hval. f_equal. f_equal. lia.
      * apply elem_of_cons in Hin as [->|Hin]; [|done].
        exists 0%nat. split; [done|]. split.
        -- intros [|j'] Hlt; [lia|]. cbn. intros Hj'.
           apply Hrest. by eapply list_elem_of_lookup_2.
        -- rewrite IHout; [|by intros [_ ?]].
           cbn [ds_tables]. rewrite lookup_insert_eq. do 2 f_equal. lia.
Qed.

(** X3. After [update_infra] the tables to delete have no rows and no
    Table entity, also when they are listed to be kept as well; a table
    that is only kept has the Table entity written for its last mention,
    stamped with the clock reading of that write whatever was stored
    before, and keeps its rows; everything else is as it was. *)
Theorem update_infra_outcome (clock : nat → datetime) (project : string)
    (tables_to_delete tables_to_keep : list string) (partial : bool)
    (ds : datastore) :
  let ds' := update_infra clock project tables_to_delete tables_to_keep
               partial ds in
  (∀ t document_id, t ∈ tables_to_delete →
     ds_rows ds' !! (project, t, document_id) = None ∧
     ds_tables ds' !! (project, t) = None) ∧
  (∀ p t document_id, ¬ (p = project ∧ t ∈ tables_to_delete) →
     ds_rows ds' !! (p, t, document_id) = ds_rows ds !! (p, t, document_id)) ∧
  (∀ t, t ∉ tables_to_delete → t ∈ tables_to_keep →
     ∃ j, tables_to_keep !! j = Some t ∧
          (∀ j', (j < j')%nat → tables_to_keep !! j' ≠ Some t) ∧
          ds_tables ds' !! (project, t) = Some (clock j)) ∧
  (∀ p t, ¬ (p = project ∧ (t ∈ tables_to_delete ∨ t ∈ tables_to_keep)) →
     ds_tables ds' !! (p, t) = ds_tables ds !! (p, t)).
Proof.
  intros ds'. subst ds'. unfold update_infra.
  destruct (delete_tables_spec project tables_to_delete
              (put_tables project clock 0 tables_to_keep ds)) as [Hr Ht].
  destruct (put_tables_spec project clock tables_to_keep 0 ds) as [Hpr Hpt].
  split; [|split; [|split]].
  - intros t document_id Hin. rewrite Hr, Ht. cbn [fst snd].
    by rewrite !decide_True.
  - intros p t document_id Hnot. rewrite Hr. cbn [fst snd].
    rewrite decide_False by done. by rewrite Hpr.
  - intros t Hdel Hkeep.
    destruct (Hpt project t) as [_ Hin].
    destruct (Hin eq_refl Hkeep) as (j & Hj & Hlast & Hval).
    exists j. split; [done|]. split; [done|].
    rewrite Ht, decide_False by (by intros [_ ?]). exact Hval.
  - intros p t Hnot. rewrite Ht.
    rewrite decide_False by (intros [-> ?]; apply Hnot; auto).
    destruct (Hpt p t) as [Hout _]. apply Hout.
    intros [-> ?]. apply Hnot. auto.
Qed.

(** ** More on the online write path *)

Lemma committed_rows_app (h1 h2 : list txn_outcome) :
  committed_rows (h1 ++ h2) = (committed_rows h1 + committed_rows h2)%nat.
Proof.
  induction h1 as [|[n|e] h1 IH]; cbn [committed_rows app]; lia.
Qed.

Lemma instant_utc_normalization (t : datetime) :
  instant (utc_normalization t) = instant t.
Proof. unfold utc_normalization, instant at 1. cbn. unfold utc. lia. Qed.

Section FaultFree.
Context `{Ext : Externals}.

Lemma not_skipped_length project table_name st (data : list WriteRecord) :
  (length (not_skipped project table_name st data) <= length data)%nat.
Proof. apply length_filter. Qed.

Lemma commit_puts_rows_wf (puts : list (RowKey * StoredRow))
    (st : gmap RowKey StoredRow) :
  (∀ k r, st !! k = Some r → row_wf r) →
  ∀ k r, commit_puts puts st !! k = Some r → row_wf r.
Proof.
  induction puts as [|put puts IH] using rev_ind; intros Hwf k r; [apply Hwf|].
  rewrite commit_puts_snoc.
  destruct (decide (k = put.1)) as [->|Hne].
  - rewrite lookup_insert_eq. intros [= <-]. apply persist_wf.
  - rewrite lookup_insert_ne by done. by apply IH.
Qed.

Lemma mapstar_no_fault project table_name progress
    (batches : list (list WriteRecord)) :
  ∀ w, faults w = [] → (∀ k r, store w !! k = Some r → row_wf r) →
  (∀ b, b ∈ batches → Forall (fun rec => record_plain_or_aware rec = true) b) →
  ∃ h,
    let run := mapstar
                 (fun b => _write_minibatch project table_name b progress)
                 batches w in
    run.2 = Ok () ∧
    faults run.1 = [] ∧
    (∀ k r, store run.1 !! k = Some r → row_wf r) ∧
    txn_log run.1 = txn_log w ++ h ∧
    length h = length batches ∧
    Forall is_committed h ∧
    progress_log run.1
      = progress_log w ++ (if progress then replicate (committed_rows h) 1
                           else []) ∧
    (committed_rows h <= length (concat batches))%nat.
Proof.
  induction batches as [|b rest IH]; intros w Hf Hwf Hrec; cbn [mapstar].
  - exists []. cbn. rewrite !app_nil_r.
    destruct progress; cbn; rewrite ?app_nil_r; auto 10.
  - rewrite (write_minibatch_no_fault project table_name b progress w Hf Hwf
               (Hrec b ltac:(by left))).
    set (m := length (not_skipped project table_name (store w) b)).
    set (w1 := {| store := _; progress_log := _; faults := [];
                  txn_log := _ |}).
    destruct (IH w1 eq_refl) as (h & Hrest).
    { subst w1. cbn [store]. by apply commit_puts_rows_wf. }
    { intros b' Hb'. apply Hrec. by right. }
    cbn zeta in Hrest. destruct (mapstar _ rest w1) as [w2 r]. cbn [fst snd] in *.
    destruct Hrest as (Hok & Hf2 & Hwf2 & Hlog & Hlen & Hall & Hprog & Hle).
    subst w1. cbn [txn_log progress_log] in Hlog, Hprog.
    exists (Committed m :: h). cbn [committed_rows length concat].
    split; [done|]. split; [done|]. split; [done|].
    split; [by rewrite Hlog, <- app_assoc|].
    split; [by rewrite Hlen|]. split; [by constructor|].
    split.
    + rewrite Hprog, <- app_assoc.
      f_equal. destruct progress; [|done]. by rewrite replicate_add.
    + rewrite length_app.
      pose proof (not_skipped_length project table_name (store w) b).
      fold m in H. lia.
Qed.

Lemma run_chunks_no_fault project table_name progress
    (chunks : list (list (list WriteRecord))) :
  ∀ w, faults w = [] → (∀ k r, store w !! k = Some r → row_wf r) →
  (∀ b, b ∈ concat chunks →
        Forall (fun rec => record_plain_or_aware rec = true) b) →
  ∃ h,
    let run := run_chunks
                 (fun b => _write_minibatch project table_name b progress)
                 chunks w in
    first_error run.2 = Ok () ∧
    faults run.1 = [] ∧
    (∀ k r, store run.1 !! k = Some r → row_wf r) ∧
    txn_log run.1 = txn_log w ++ h ∧
    length h = length (concat chunks) ∧
    Forall is_committed h ∧
    progress_log run.1
      = progress_log w ++ (if progress then replicate (committed_rows h) 1
                           else []) ∧
    (committed_rows h <= length (concat (concat chunks)))%nat.
Proof.
  induction chunks as [|chunk rest IH]; intros w Hf Hwf Hrec; cbn [run_chunks].
  - exists []. cbn. rewrite !app_nil_r.
    destruct progress; cbn; rewrite ?app_nil_r; auto 10.
  - cbn [concat] in Hrec.
    destruct (mapstar_no_fault project table_name progress chunk w Hf Hwf)
      as (h1 & Hchunk).
    { intros b Hb. apply Hrec, elem_of_app. by left. }
    cbn zeta in Hchunk. destruct (mapstar _ chunk w) as [w1 r1].
    cbn [fst snd] in *.
    destruct Hchunk as (-> & Hf1 & Hwf1 & Hlog1 & Hlen1 & Hall1 & Hprog1 & Hle1).
    destruct (IH w1 Hf1 Hwf1) as (h2 & Hrest).
    { intros b Hb. apply Hrec, elem_of_app. by right. }
    cbn zeta in Hrest. destruct (run_chunks _ rest w1) as [w2 rs].
    cbn [fst snd] in *.
    destruct Hrest as (Hok & Hf2 & Hwf2 & Hlog2 & Hlen2 & Hall2 & Hprog2 & Hle2).
    exists (h1 ++ h2). cbn [first_error concat].
    split; [done|]. split; [done|]. split; [done|].
    split; [by rewrite Hlog2, Hlog1, <- app_assoc|].
    split; [by rewrite !length_app, Hlen1, Hlen2|].
    split; [by apply Forall_app|].
    split.
    + rewrite Hprog2, Hprog1, <- app_assoc. f_equal.
      destruct progress; [|done].
      by rewrite committed_rows_app, replicate_add.
    + rewrite committed_rows_app, concat_app, length_app. lia.
Qed.

(** X5. When the store raises nothing, its rows have aware timestamps
    and the timestamps of the records are naive or aware,
    [online_write_batch] returns normally after one committed transaction
    per minibatch, [ceil(N/50)] in all; the callback, if there is one, has
    been called once for each row those transactions put, which are at
    most [N]; and the rows still have aware timestamps. *)
Theorem online_write_batch_no_fault project table_name
    (data : list WriteRecord) progress w :
  faults w = [] →
  (∀ k r, store w !! k = Some r → row_wf r) →
  Forall (fun rec => record_plain_or_aware rec = true) data →
  ∃ h,
    (online_write_batch project table_name data progress w).2 = Ok () ∧
    txn_log (online_write_batch project table_name data progress w).1
      = txn_log w ++ h ∧
    length h = ((length data + 49) / 50)%nat ∧
    Forall is_committed h ∧
    progress_log (online_write_batch project table_name data progress w).1
      = progress_log w ++ (if progress then replicate (committed_rows h) 1
                           else []) ∧
    (committed_rows h <= length data)%nat ∧
    (∀ k r,
       store (online_write_batch project table_name data progress w).1 !! k
         = Some r → row_wf r).
Proof.
  intros Hf Hwf Hrec. unfold online_write_batch, pool_map.
  destruct (run_chunks_no_fault project table_name progress
              (_to_minibatches_from
                 (pool_chunksize (length (_to_minibatches data)))
                 (_to_minibatches data)) w Hf Hwf) as (h & Hrun).
  { rewrite pool_chunks_concat. intros b Hb.
    apply Forall_forall. intros rec Hin.
    eapply Forall_forall in Hrec; [exact Hrec|].
    by eapply elem_of_to_minibatches. }
  cbn zeta in Hrun. destruct (run_chunks _ _ w) as [w' rs]. cbn [fst snd] in *.
  destruct Hrun as (Hok & _ & Hwf' & Hlog & Hlen & Hall & Hprog & Hle).
  exists h. rewrite pool_chunks_concat in Hlen, Hle.
  unfold _to_minibatches in *.
  rewrite to_minibatches_from_length in Hlen.
  rewrite to_minibatches_from_concat in Hle. auto 10.
Qed.

End FaultFree.

Lemma online_write_batch_no_fault_witness :
  ∃ h,
    (online_write_batch "p" "t" [record_fresh; record_old] true
       (empty_world [])).2 = Ok () ∧
    txn_log (online_write_batch "p" "t" [record_fresh; record_old] true
               (empty_world [])).1 = [] ++ h ∧
    length h = 1%nat ∧
    Forall is_committed h ∧
    progress_log (online_write_batch "p" "t" [record_fresh; record_old] true
                    (empty_world [])).1
      = [] ++ replicate (committed_rows h) 1 ∧
    (committed_rows h <= 2)%nat ∧
    (∀ k r,
       store (online_write_batch "p" "t" [record_fresh; record_old] true
                (empty_world [])).1 !! k = Some r → row_wf r).
Proof.
  apply (online_write_batch_no_fault "p" "t" [record_fresh; record_old] true
           (empty_world [])).
  - reflexivity.
  - intros k r Hk. cbn in Hk. by rewrite lookup_empty in Hk.
  - repeat constructor.
Defined.

Lemma online_write_batch_frame_witness :
  store (online_write_batch "p" "t" [record_naive] true (empty_world [])).1
    !! ("p", "other", "00")
  = store (empty_world []) !! ("p", "other", "00").
Proof.
  apply (online_write_batch_frame "p" "t" [record_naive] true (empty_world [])
           ("p", "other", "00")).
  intros rec _. unfold row_key. intros [=].
Defined.

Section Replay.
Context `{Ext : Externals}.

(** The row kept for a record is never stale against that record. *)
Lemma not_stale_self (rec : WriteRecord) :
  ¬ stale_cond (incoming_values rec) rec.1.2 rec.2.
Proof.
  destruct rec as [[[entity_key feats] timestamp] created].
  unfold stale_cond. cbn [incoming_values event_ts created_ts fst snd].
  rewrite instant_utc_normalization.
  intros [Hlt|[_ (c & ec & -> & Hec & Hlt)]]; [lia|].
  cbn in Hec. injection Hec as <-.
  rewrite instant_utc_normalization in Hlt. lia.
Qed.

(** X6. A record whose row is already stored as it is written, and whose
    timestamps are naive or aware, is not skipped: the row is put again,
    it is counted and the callback is called; committing that put leaves
    the rows as they are. *)
Theorem replayed_record_is_put_again project table_name progress f i
    (rec : WriteRecord) rest snapshot puts log n :
  get_fault f i = None →
  record_plain_or_aware rec = true →
  snapshot !! row_key project table_name rec
    = Some (persist (updated_row rec)) →
  txn_body project table_name progress f i (rec :: rest) snapshot puts log n
  = txn_body project table_name progress f (S i) rest snapshot
      (puts ++ [(row_key project table_name rec, updated_row rec)])
      (if progress then log ++ [1] else log) (S n) ∧
  commit_puts [(row_key project table_name rec, updated_row rec)] snapshot
  = snapshot.
Proof.
  intros Hf Hrec Hst. split.
  - cbn [txn_body]. rewrite Hf.
    rewrite (write_record_spec project table_name snapshot rec); [|..|done].
    2:{ intros e. rewrite Hst. intros [= <-]. apply persist_wf. }
    rewrite decide_False; [done|].
    unfold skipped. rewrite Hst, (persist_updated_row rec Hrec).
    apply not_stale_self.
  - unfold commit_puts. cbn [foldl fst snd]. by apply insert_id.
Qed.


End Replay.

Lemma replayed_record_is_put_again_witness :
  txn_body "p" "t" true NoFault 0 [record_naive] (store_of record_naive) [] [] 0
  = ([1], Ok ([(row_key "p" "t" record_naive, updated_row record_naive)], 1%nat)) ∧
  commit_puts [(row_key "p" "t" record_naive, updated_row record_naive)]
    (store_of record_naive)
  = store_of record_naive.
Proof.
  exact (replayed_record_is_put_again "p" "t" true NoFault 0 record_naive []
           (store_of record_naive) [] [] 0 eq_refl eq_refl
           (lookup_singleton_eq _ _)).
Defined.


(** ** Comparing with a stored row *)



(** Written over a row that exists, a timestamp whose tzinfo gives no
    offset makes the comparison raise, and nothing is written; written
    where no row exists, it is kept as the instant its fields denote in the
    system time zone (one hour ahead of UTC in the sample instantiation). *)
Example no_utcoffset_raises :
  (online_write_batch "p" "t" [record_no_utcoffset] true
     (world_of (store_of record_naive))).2 = Raise TypeError ∧
  event_ts <$>
    store (online_write_batch "p" "t" [record_no_utcoffset] true
             (world_of (store_of record_naive))).1
      !! row_key "p" "t" record_naive
  = Some (mk_datetime 5 (Some (Offset 0))).
Proof. vm_compute. done. Qed.

Example no_utcoffset_is_read_as_local_time :
  event_ts <$>
    store (online_write_batch "p" "t" [record_no_utcoffset] true
             (empty_world [])).1
      !! row_key "p" "t" record_no_utcoffset
  = Some (mk_datetime (5 - 3600000000) (Some (Offset 0))).
Proof. vm_compute. reflexivity. Qed.

(** ** Small batches are all or nothing *)

Section Atomic.
Context `{Ext : Externals}.

Lemma to_minibatches_small {A} (data : list A) :
  (0 < length data <= 50)%nat → _to_minibatches data = [data].
Proof.
  intros Hlen. destruct data as [|x data]; [cbn in Hlen; lia|].
  unfold _to_minibatches. rewrite to_minibatches_from_cons.
  rewrite take_ge by lia. rewrite drop_ge by lia.
  by rewrite to_minibatches_from_nil.
Qed.

(** X19. A batch of at most 50 records is written in one minibatch, so
    it is all or nothing: when [online_write_batch] raises, the rows are as
    they were before the call. *)
Theorem small_batch_is_atomic project table_name (data : list WriteRecord)
    progress w e :
  (length data <= 50)%nat →
  (online_write_batch project table_name data progress w).2 = Raise e →
  store (online_write_batch project table_name data progress w).1 = store w.
Proof.
  intros Hlen. unfold online_write_batch, pool_map.
  destruct data as [|x data].
  { unfold _to_minibatches. by rewrite !to_minibatches_from_nil. }
  rewrite to_minibatches_small by (cbn in *; lia).
  change (pool_chunksize (length [x :: data])) with 1%nat.
  rewrite to_minibatches_from_cons. cbn [take drop].
  rewrite to_minibatches_from_nil. cbn [run_chunks mapstar].
  pose proof (write_minibatch_raise_keeps_store project table_name
                (x :: data) progress w) as Hkeep.
  destruct (_write_minibatch project table_name (x :: data) progress w)
    as [w1 [[]|e1]]; cbn [fst snd first_error] in *; [done|].
  intros _. by eapply Hkeep.
Qed.

End Atomic.

Lemma small_batch_is_atomic_witness :
  store (online_write_batch "p" "t" [record_naive] true
           (empty_world [GetFails 0 (RemoteError "unavailable")])).1
  = store (empty_world [GetFails 0 (RemoteError "unavailable")]).
Proof.
  apply (small_batch_is_atomic "p" "t" [record_naive] true
           (empty_world [GetFails 0 (RemoteError "unavailable")])
           (RemoteError "unavailable")).
  - cbn. lia.
  - reflexivity.
Defined.

(** ** More on online reads *)

Section ReadFacts.
Context `{Ext : Externals}.

(** Decoding fails as soon as one value does not parse, and only then. *)
Lemma parse_items_fails (items : list (string * bytes)) :
  ∀ acc feature_name value_bin,
  (feature_name, value_bin) ∈ items →
  Value_ParseFromString value_bin = None →
  parse_items items acc = Raise DecodeError.
Proof.
  induction items as [|[k0 b0] rest IH]; intros acc feature_name value_bin Hin Hbad.
  - by apply elem_of_nil in Hin.
  - cbn [parse_items]. apply elem_of_cons in Hin as [[= <- <-]|Hin].
    + by rewrite Hbad.
    + destruct (Value_ParseFromString b0); [by eapply IH|done].
Qed.

Lemma online_read_loop_fails st project table_name entity_keys :
  ∀ acc row feature_name value_bin,
  looked_up st project table_name entity_keys row →
  values row !! feature_name = Some value_bin →
  Value_ParseFromString value_bin = None →
  online_read_loop st project table_name entity_keys acc = Raise DecodeError.
Proof.
  induction entity_keys as [|entity_key rest IH];
    intros acc row feature_name value_bin (ek & Hin & Hrow) Hval Hbad.
  - by apply elem_of_nil in Hin.
  - cbn [online_read_loop].
    destruct (st !! (project, table_name, compute_datastore_entity_id entity_key))
      as [value|] eqn:Hhere.
    + destruct (parse_items (map_to_list (values value)) ∅) as [res|e] eqn:Hp.
      * cbn [mbind result_bind].
        apply elem_of_cons in Hin as [->|Hin].
        -- rewrite Hrow in Hhere. injection Hhere as <-.
           rewrite (parse_items_fails _ _ feature_name value_bin) in Hp;
             [done| |done].
           by apply elem_of_map_to_list.
        -- eapply IH; [|done..]. by exists ek.
      * cbn [mbind result_bind].
        assert (e = DecodeError) as ->; [|done].
        clear -Hp. revert Hp. generalize (∅ : gmap string ValueProto).
        induction (map_to_list (values value)) as [|[k b] l IHl]; intros acc';
          cbn [parse_items]; [done|].
        destruct (Value_ParseFromString b); [apply IHl|congruence].
    + apply elem_of_cons in Hin as [->|Hin]; [congruence|].
      eapply IH; [|done..]. by exists ek.
Qed.

Lemma online_read_loop_ok st project table_name entity_keys :
  (∀ row feature_name value_bin,
     looked_up st project table_name entity_keys row →
     values row !! feature_name = Some value_bin →
     is_Some (Value_ParseFromString value_bin)) →
  ∀ acc, ∃ out,
    online_read_loop st project table_name entity_keys acc = Ok (acc ++ out) ∧
    length out = length entity_keys.
Proof.
  induction entity_keys as [|entity_key rest IH]; intros Hdec acc;
    cbn [online_read_loop].
  - exists []. by rewrite app_nil_r.
  - assert (Hrest : ∀ row feature_name value_bin,
              looked_up st project table_name rest row →
              values row !! feature_name = Some value_bin →
              is_Some (Value_ParseFromString value_bin)).
    { intros row fn vb (ek & Hin & Hrow). apply Hdec.
      exists ek. split; [by right|done]. }
    destruct (st !! (project, table_name, compute_datastore_entity_id entity_key))
      as [value|] eqn:Hrow.
    + destruct (parse_values (values value)) as (res & -> & _).
      { intros fn vb. apply Hdec. exists entity_key. split; [by left|done]. }
      cbn [mbind result_bind].
      destruct (IH Hrest (acc ++ [(Some (event_ts value), Some res)]))
        as (out & -> & Hlen).
      exists ((Some (event_ts value), Some res) :: out).
      rewrite <- app_assoc. split; [done|]. cbn. lia.
    + destruct (IH Hrest (acc ++ [(None, None)])) as (out & -> & Hlen).
      exists ((None, None) :: out). rewrite <- app_assoc. split; [done|].
      cbn. lia.
Qed.

(** X8. [online_read] raises DecodeError when a value of one of the
    rows it looks up does not parse, whichever key that is, and in that
    case returns no answer for any key; when all those values parse it
    returns, whatever else the store holds. *)
Theorem online_read_decode_error st project table_name
    (entity_keys : list EntityKeyProto) :
  (∀ row feature_name value_bin,
     looked_up st project table_name entity_keys row →
     values row !! feature_name = Some value_bin →
     Value_ParseFromString value_bin = None →
     online_read st project table_name entity_keys = Raise DecodeError) ∧
  ((∀ row feature_name value_bin,
      looked_up st project table_name entity_keys row →
      values row !! feature_name = Some value_bin →
      is_Some (Value_ParseFromString value_bin)) →
   ∃ out, online_read st project table_name entity_keys = Ok out ∧
          length out = length entity_keys).
Proof.
  split.
  - intros row feature_name value_bin. apply online_read_loop_fails.
  - intros Hdec.
    destruct (online_read_loop_ok st project table_name entity_keys Hdec [])
      as (out & Hout & Hlen). eauto.
Qed.

Lemma online_read_loop_ext st1 st2 project table_name
    (keys1 keys2 : list EntityKeyProto) :
  (∀ document_id, st1 !! (project, table_name, document_id)
                  = st2 !! (project, table_name, document_id)) →
  compute_datastore_entity_id <$> keys1 = compute_datastore_entity_id <$> keys2 →
  ∀ acc, online_read_loop st1 project table_name keys1 acc
         = online_read_loop st2 project table_name keys2 acc.
Proof.
  intros Hst. revert keys2.
  induction keys1 as [|k1 rest1 IH]; intros [|k2 rest2] Hids acc; try done.
  cbn [fmap list_fmap] in Hids. injection Hids as Hid Hids.
  cbn [online_read_loop]. rewrite Hid, Hst.
  destruct (st2 !! _) as [value|].
  - destruct (parse_items _ _); cbn [mbind result_bind]; [by apply IH|done].
  - by apply IH.
Qed.

(** X9. The answer of [online_read] depends on the store only through
    the rows of the table read, and on the keys only through their
    identifiers: keys whose identifiers collide get the same answers. *)
Theorem online_read_depends_on_table_and_ids st1 st2 project table_name
    (keys1 keys2 : list EntityKeyProto) :
  (∀ document_id, st1 !! (project, table_name, document_id)
                  = st2 !! (project, table_name, document_id)) →
  compute_datastore_entity_id <$> keys1 = compute_datastore_entity_id <$> keys2 →
  online_read st1 project table_name keys1
  = online_read st2 project table_name keys2.
Proof. intros Hst Hids. by apply online_read_loop_ext. Qed.

(** The feature map read back from the values a write serialized. *)
Lemma parse_serialized (feats : gmap string ValueProto) :
  (∀ v, Value_ParseFromString (Value_SerializeToString v) = Some v) →
  parse_items (map_to_list (Value_SerializeToString <$> feats)) ∅ = Ok feats.
Proof.
  intros Hround.
  destruct (parse_values (Value_SerializeToString <$> feats)) as (res & -> & Hres).
  { intros fn vb. rewrite lookup_fmap. intros Hv.
    apply fmap_Some in Hv as (v & _ & ->). rewrite Hround. eauto. }
  f_equal. apply map_eq. intros fn. rewrite Hres, lookup_fmap.
  destruct (feats !! fn) as [v|]; cbn; [apply Hround|done].
Qed.

(** X10. Read your write: when the protobuf codec round-trips, the store
    raises nothing, the record's timestamps are naive or aware and the row
    under the record's key, if there is one, is not fresher than the
    record, then after [online_write_batch] of that record [online_read]
    of its key answers the record's event timestamp normalized to UTC, as
    the store hands it back, and its feature map. *)
Theorem read_after_write project table_name progress w
    (entity_key : EntityKeyProto) (feats : gmap string ValueProto)
    (timestamp : datetime) (created : option datetime) :
  (∀ v, Value_ParseFromString (Value_SerializeToString v) = Some v) →
  faults w = [] →
  record_plain_or_aware (entity_key, feats, timestamp, created) = true →
  (∀ e, store w !! (project, table_name, compute_datastore_entity_id entity_key)
          = Some e →
        row_wf e ∧ ¬ stale_cond e timestamp created) →
  online_read
    (store (online_write_batch project table_name
              [(entity_key, feats, timestamp, created)] progress w).1)
    project table_name [entity_key]
  = Ok [(Some (utc_normalization timestamp), Some feats)].
Proof.
  intros Hround Hf Hrec Hrow.
  set (rec := (entity_key, feats, timestamp, created)) in *.
  assert (Hw : write_record (store w !! row_key project table_name rec) rec
               = Ok (Upsert (updated_row rec))).
  { rewrite (write_record_spec project table_name (store w) rec); [|..|done].
    2:{ intros e He. by destruct (Hrow e He). }
    rewrite decide_False; [done|]. unfold skipped.
    destruct (store w !! row_key project table_name rec) as [e|] eqn:He;
      [|tauto].
    by destruct (Hrow e He). }
  pose proof (online_write_batch_singleton project table_name rec progress w)
    as Hone.
  unfold _write_minibatch, num_retries_on_conflict in Hone.
  cbn [seq retry_loop] in Hone. unfold attempt in Hone.
  rewrite Hf in Hone. cbn [hd tl txn_body get_fault] in Hone.
  rewrite Hw in Hone. cbn [commit_fault fst snd store app] in Hone.
  unfold commit_puts in Hone. cbn [foldl fst snd] in Hone.
  replace (online_write_batch project table_name [rec] progress w)
    with ({| store :=
               <[row_key project table_name rec := persist (updated_row rec)]>
                 (store w);
             progress_log :=
               if progress then progress_log w ++ [1] else progress_log w;
             faults := [];
             txn_log := txn_log w ++ [Committed 1] |}, @Ok unit ())
    by (symmetry; exact Hone).
  cbn [fst store].
  unfold online_read. cbn [online_read_loop].
  change (project, table_name, compute_datastore_entity_id entity_key)
    with (row_key project table_name rec).
  rewrite lookup_insert_eq, (persist_updated_row rec Hrec).
  subst rec. cbn [incoming_values values event_ts fst snd].
  rewrite (parse_serialized feats Hround). done.
Qed.

End ReadFacts.

Lemma online_read_depends_on_table_and_ids_witness :
  online_read (store_of record_naive) "p" "t" sample_keys
  = online_read
      (<[("p", "other", "00") := updated_row record_fresh]>
         (store_of record_naive))
      "p" "t" sample_keys.
Proof.
  apply (online_read_depends_on_table_and_ids (Ext := sample_externals)
           (store_of record_naive)
           (<[("p", "other", "00") := updated_row record_fresh]>
              (store_of record_naive))
           "p" "t" sample_keys sample_keys).
  - intros document_id. by rewrite lookup_insert_ne.
  - reflexivity.
Defined.

Lemma read_after_write_witness :
  online_read
    (store (online_write_batch "p" "t"
              [([Byte.x01], ∅,
                mk_datetime 7200000000 (Some (Offset 7200000000)), None)] true
              (empty_world [])).1)
    "p" "t" [[Byte.x01]]
  = Ok [(Some (mk_datetime 0 (Some (Offset 0))), Some ∅)].
Proof.
  apply (read_after_write (Ext := sample_externals) "p" "t" true
           (empty_world []) [Byte.x01] ∅
           (mk_datetime 7200000000 (Some (Offset 7200000000))) None).
  - intros v. reflexivity.
  - reflexivity.
  - reflexivity.
  - intros e He. cbn in He. by rewrite lookup_empty in He.
Defined.

(** ** Identifiers and hashes *)

Lemma unhex_byte_hex_digits (x : Byte.byte) :
  unhex_byte (hex_digit (Byte.to_N x / 16)) (hex_digit (Byte.to_N x mod 16))
  = Some x.
Proof. destruct x; reflexivity. Qed.

Lemma fromhex_hex (b : bytes) : fromhex (hex b) = Some b.
Proof.
  induction b as [|x b IH]; [done|].
  cbn [hex fromhex]. by rewrite unhex_byte_hex_digits, IH.
Qed.

Lemma hex_inj (b1 b2 : bytes) : hex b1 = hex b2 → b1 = b2.
Proof.
  intros Heq. apply (f_equal fromhex) in Heq.
  rewrite !fromhex_hex in Heq. congruence.
Qed.

Section IdentifierFacts.
Context `{Ext : Externals}.

(** X11. The identifier loses nothing of the hash: the hash bytes can be
    read back from it, so two keys get the same identifier exactly when the
    hashes of their serializations are equal. *)
Theorem entity_id_collides_iff_hash_collides (k1 k2 : EntityKeyProto) :
  fromhex (compute_datastore_entity_id k1)
    = Some (mmh3_hash_bytes (serialize_entity_key k1)) ∧
  (compute_datastore_entity_id k1 = compute_datastore_entity_id k2 ↔
   mmh3_hash_bytes (serialize_entity_key k1)
     = mmh3_hash_bytes (serialize_entity_key k2)).
Proof.
  unfold compute_datastore_entity_id. split; [apply fromhex_hex|].
  split; [apply hex_inj|by intros ->].
Qed.

End IdentifierFacts.

(** ** Minibatches of any size *)

(** X12. For any positive batch size the generator yields
    [ceil(N/size)] batches whose concatenation is the input, and the record
    at position [j] of the input is at position [j mod size] of batch
    [j / size]; with batch size 0 it yields nothing, whatever the input. *)
Theorem to_minibatches_from_locates {A} (batch_size : nat) (data : list A) :
  (batch_size = 0%nat → _to_minibatches_from batch_size data = []) ∧
  ((0 < batch_size)%nat →
   length (_to_minibatches_from batch_size data)
     = ((length data + (batch_size - 1)) / batch_size)%nat ∧
   concat (_to_minibatches_from batch_size data) = data ∧
   ∀ j x, data !! j = Some x →
     ∃ batch,
       _to_minibatches_from batch_size data !! (j / batch_size)%nat
         = Some batch ∧
       batch !! (j mod batch_size)%nat = Some x).
Proof.
  split.
  - intros ->. rewrite to_minibatches_from_unfold. by rewrite take_0.
  - intros Hpos. destruct batch_size as [|n]; [lia|].
    replace (S n - 1)%nat with n by lia.
    split; [apply to_minibatches_from_length|].
    split; [apply to_minibatches_from_concat|].
    intros j x Hj.
    pose proof (lookup_lt_Some _ _ _ Hj) as Hlt.
    pose proof (Nat.div_mod_eq j (S n)) as Hdm.
    pose proof (Nat.mod_upper_bound j (S n) ltac:(lia)) as Hmod.
    exists (take (S n) (drop (j / S n * S n) data)). split.
    + rewrite to_minibatches_from_lookup. rewrite decide_True; [done|]. lia.
    + rewrite lookup_take_lt by lia. rewrite lookup_drop.
      rewrite <- Hj. f_equal. lia.
Qed.

Lemma to_minibatches_from_locates_witness :
  length (_to_minibatches_from 3 [10; 11; 12; 13; 14; 15; 16])
    = ((7 + (3 - 1)) / 3)%nat ∧
  concat (_to_minibatches_from 3 [10; 11; 12; 13; 14; 15; 16])
    = [10; 11; 12; 13; 14; 15; 16] ∧
  ∀ j x, [10; 11; 12; 13; 14; 15; 16] !! j = Some x →
    ∃ batch,
      _to_minibatches_from 3 [10; 11; 12; 13; 14; 15; 16] !! (j / 3)%nat
        = Some batch ∧
      batch !! (j mod 3)%nat = Some x.
Proof.
  apply (proj2 (to_minibatches_from_locates 3 [10; 11; 12; 13; 14; 15; 16])).
  lia.
Defined.

(** ** Reading a table that was torn down *)

Section Teardown.
Context `{Ext : Externals}.

Lemma online_read_loop_absent st project table_name
    (entity_keys : list EntityKeyProto) :
  (∀ document_id, st !! (project, table_name, document_id) = None) →
  ∀ acc, online_read_loop st project table_name entity_keys acc
         = Ok (acc ++ replicate (length entity_keys) (None, None)).
Proof.
  intros Hnone. induction entity_keys as [|entity_key rest IH]; intros acc;
    cbn [online_read_loop length replicate].
  - by rewrite app_nil_r.
  - rewrite Hnone, IH. by rewrite <- app_assoc.
Qed.

(** X13. After [teardown_infra] of a table, [online_read] on that
    table answers [(None, None)] for every key. *)
Theorem online_read_after_teardown project (tables : list string) table_name
    (ds : datastore) (entity_keys : list EntityKeyProto) :
  table_name ∈ tables →
  online_read (ds_rows (teardown_infra project tables ds)) project table_name
    entity_keys
  = Ok (replicate (length entity_keys) (None, None)).
Proof.
  intros Hin. unfold online_read.
  rewrite online_read_loop_absent; [done|].
  intros document_id. unfold teardown_infra.
  destruct (delete_tables_spec project tables ds) as [Hr _].
  rewrite Hr. cbn [fst snd]. by rewrite decide_True.
Qed.

End Teardown.

Lemma online_read_after_teardown_witness :
  online_read (ds_rows (teardown_infra "p" ["t"] sample_datastore)) "p" "t"
    sample_keys
  = Ok (replicate (length sample_keys) (None, None)).
Proof.
  apply (online_read_after_teardown "p" ["t"] "t" sample_datastore sample_keys).
  by left.
Defined.

(** ** Query contexts *)

(** [int(ttl.total_seconds())] is the truncated quotient as long as the
    float holds the microseconds apart: below [2 ^ 34] seconds. *)
Lemma round_half_even_cases (a b : Z) :
  round_half_even a b = a / b ∨
  (round_half_even a b = a / b + 1 ∧ b <= 2 * (a mod b)).
Proof.
  unfold round_half_even.
  destruct (Z.ltb_spec (2 * (a mod b)) b); [by left|].
  destruct (Z.ltb_spec b (2 * (a mod b))); [right; lia|].
  destruct (Z.even (a / b)); [by left|right; lia].
Qed.

Lemma rounded_quotient_trunc (n b k : Z) :
  0 <= n → 0 < b → 0 <= k → b < 2 ^ (k + 1) →
  round_half_even (n * 2 ^ k) b / 2 ^ k = n / b.
Proof.
  intros Hn Hb Hk Hbk.
  assert (Hp : 0 < 2 ^ k) by (apply Z.pow_pos_nonneg; lia).
  rewrite Z.pow_add_r in Hbk by lia. change (2 ^ 1) with 2 in Hbk.
  pose proof (Z.div_mod n b ltac:(lia)) as Hdm.
  pose proof (Z.mod_pos_bound n b Hb) as Hf.
  set (s := n / b) in *. set (f := n mod b) in *.
  assert (Hs : 0 <= s) by (apply Z.div_pos; lia).
  assert (HN : n * 2 ^ k = f * 2 ^ k + (s * 2 ^ k) * b) by lia.
  assert (Hdiv : n * 2 ^ k / b = s * 2 ^ k + f * 2 ^ k / b).
  { rewrite HN, Z.div_add by lia. lia. }
  assert (Hmod : (n * 2 ^ k) mod b = (f * 2 ^ k) mod b).
  { rewrite HN, Z.mod_add by lia. done. }
  pose proof (Z.div_mod (f * 2 ^ k) b ltac:(lia)) as Hdm2.
  pose proof (Z.mod_pos_bound (f * 2 ^ k) b Hb) as Hr.
  set (g := f * 2 ^ k / b) in *. set (r := (f * 2 ^ k) mod b) in *.
  assert (Hg0 : 0 <= g) by (apply Z.div_pos; nia).
  assert (Hg : g < 2 ^ k) by nia.
  symmetry. apply Z.div_unique_pos with (r := round_half_even (n * 2 ^ k) b - s * 2 ^ k).
  2: lia.
  destruct (round_half_even_cases (n * 2 ^ k) b) as [->|[-> Hhalf]];
    rewrite Hdiv; [lia|].
  rewrite Hmod in Hhalf.
  assert (g + 1 < 2 ^ k); [|lia].
  destruct (Z.eq_dec g (2 ^ k - 1)) as [Heq|]; [|lia].
  exfalso. nia.
Qed.

Lemma quotient_exponent_small (n b : Z) (j : Z) :
  0 < n → 0 < b → 0 <= j → n < 2 ^ j * b → quotient_exponent n b < j.
Proof.
  intros Hn Hb Hj Hlt. unfold quotient_exponent.
  remember (Z.log2 n - Z.log2 b) as e eqn:Hedef.
  pose proof (Z.log2_spec n Hn) as [Hn1 Hn2].
  pose proof (Z.log2_spec b Hb) as [Hb1 Hb2].
  pose proof (Z.log2_nonneg n). pose proof (Z.log2_nonneg b).
  assert (He : e <= j).
  { destruct (Z.le_gt_cases e j) as [|Hgt]; [done|]. exfalso.
    assert (j + 1 + Z.log2 b <= Z.log2 n) by (clear - Hedef Hgt; lia).
    assert (2 ^ (j + 1 + Z.log2 b) <= 2 ^ Z.log2 n)
      by (apply Z.pow_le_mono_r; lia).
    rewrite !Z.pow_add_r in * by lia.
    rewrite Z.pow_succ_r in Hb2 by lia.
    assert (0 < 2 ^ j) by (apply Z.pow_pos_nonneg; lia).
    change (2 ^ 1) with 2 in *.
    assert (2 ^ j * b < 2 ^ j * (2 * 2 ^ Z.log2 b))
      by (apply Z.mul_lt_mono_pos_l; lia).
    lia. }
  destruct (Z.ltb_spec (scale_num n (- e)) (scale_den b (- e))) as [|Hge]; [lia|].
  destruct (Z.eq_dec e j) as [Hej|]; [|lia]. exfalso.
  unfold scale_num, scale_den in Hge.
  destruct (Z.leb_spec 0 (- e)).
  - assert (e = 0) as He0 by lia. rewrite He0 in *. assert (j = 0) by lia. subst j.
    change (2 ^ (-0)) with 1 in *. change (2 ^ 0) with 1 in *. lia.
  - rewrite Z.opp_involutive, Hej in Hge. lia.
Qed.

Lemma int_truediv_pos_exact (n : Z) :
  0 <= n → n < 2 ^ 34 * 1000000 →
  int_truediv_pos n 1000000 = n / 1000000.
Proof.
  intros Hn Hlt. unfold int_truediv_pos.
  destruct (Z.eqb_spec n 0) as [->|Hne]; [done|].
  pose proof (quotient_exponent_small n 1000000 34 ltac:(lia) ltac:(lia)
                ltac:(lia) Hlt) as He.
  set (k := 52 - quotient_exponent n 1000000) in *.
  assert (Hk : 19 <= k) by lia.
  destruct (Z.leb_spec 0 k); [|lia].
  unfold scale_num, scale_den. destruct (Z.leb_spec 0 k); [|lia].
  apply rounded_quotient_trunc; try lia.
  assert (2 ^ 20 <= 2 ^ (k + 1)) by (apply Z.pow_le_mono_r; lia).
  change (2 ^ 20) with 1048576 in *. lia.
Qed.

Lemma int_total_seconds_exact (d : Z) :
  Z.abs d < 2 ^ 34 * 1000000 → int_total_seconds d = Z.quot d 1000000.
Proof.
  intros Hd. unfold int_total_seconds.
  rewrite int_truediv_pos_exact by lia.
  destruct (Z.abs_spec d) as [[Hpos ->]|[Hneg ->]].
  - rewrite Z.quot_div_nonneg by lia.
    destruct (Z.eq_dec d 0) as [->|]; [done|].
    rewrite Z.sgn_pos by lia. lia.
  - rewrite Z.sgn_neg by lia.
    rewrite <- (Z.opp_involutive d) at 2. rewrite Z.quot_opp_l by lia.
    rewrite Z.quot_div_nonneg by lia. lia.
Qed.

(** Above that bound the float rounds: 200000 days, 5 seconds and 999999
    microseconds come out as one second more than the whole seconds. *)
Example int_total_seconds_rounds_up :
  int_total_seconds 17280000005999999 = 17280000006 ∧
  Z.quot 17280000005999999 1000000 = 17280000005.
Proof. vm_compute. done. Qed.

Section ContextFacts.
Context `{Ext : Externals}.

Lemma query_context_loop_ok (items : list (FeatureView * list string)) :
  Forall (fun it => ∃ src, fv_input it.1 = SrcBigQuery src) items →
  ∀ acc, ∃ ctxs,
    query_context_loop items acc = Ok (acc ++ ctxs) ∧
    Forall2 (fun it ctx =>
               name ctx = fv_name it.1 ∧
               entities ctx = fv_entities it.1 ∧
               features ctx = it.2 ∧
               ttl ctx = match fv_ttl it.1 with
                         | Some d => int_total_seconds d
                         | None => 0
                         end ∧
               ∃ src, fv_input it.1 = SrcBigQuery src ∧
                 event_timestamp_column ctx = bq_event_timestamp_column src ∧
                 created_timestamp_column ctx = bq_created_timestamp_column src ∧
                 table_subquery ctx = get_table_query_string src)
            items ctxs.
Proof.
  induction items as [|[fv feats] rest IH]; intros Hall acc;
    cbn [query_context_loop].
  - exists []. by rewrite app_nil_r.
  - apply Forall_cons in Hall as [[src Hsrc] Hall]. cbn [fst] in Hsrc.
    rewrite Hsrc.
    destruct (IH Hall (acc ++ [
      {| name := fv_name fv;
         ttl := match fv_ttl fv with
                | Some d => int_total_seconds d
                | None => 0
                end;
         entities := fv_entities fv;
         features := feats;
         table_ref := bq_table_ref src;
         event_timestamp_column := bq_event_timestamp_column src;
         created_timestamp_column := bq_created_timestamp_column src;
         field_mapping := bq_field_mapping src;
         query := bq_query src;
         table_subquery := get_table_query_string src |}]))
      as (ctxs & -> & Hctxs).
    eexists (_ :: ctxs). rewrite <- app_assoc. split; [done|].
    constructor; [|done]. cbn. repeat split; try done. by exists src.
Qed.

(** X14. Given the grouping of the requested features by view,
    [get_feature_view_query_context] raises AssertionError as soon as one
    of the views has a source that is not a BigQuery source, and otherwise
    returns one context per view, in the order of the grouping, with the
    view's name, entities and requested features, its columns and table
    expression taken from the source, and its ttl as
    [int(ttl.total_seconds())] gives it (0 when the view has none), which
    for a ttl below [2 ^ 34] seconds is its whole seconds, truncated
    towards zero. *)
Theorem query_context_per_view (feature_refs : list string)
    (feature_views : list FeatureView) items :
  _get_requested_feature_views_to_features_dict feature_refs feature_views
    = Ok items →
  (∀ fv feats kind, (fv, feats) ∈ items → fv_input fv = SrcOther kind →
     get_feature_view_query_context feature_refs feature_views
       = Raise AssertionError) ∧
  (Forall (fun it => ∃ src, fv_input it.1 = SrcBigQuery src) items →
   ∃ ctxs,
     get_feature_view_query_context feature_refs feature_views = Ok ctxs ∧
     length ctxs = length items ∧
     ∀ i fv feats, items !! i = Some (fv, feats) →
       ∃ ctx src, ctxs !! i = Some ctx ∧
         fv_input fv = SrcBigQuery src ∧
         name ctx = fv_name fv ∧
         entities ctx = fv_entities fv ∧
         features ctx = feats ∧
         ttl ctx = match fv_ttl fv with
                   | Some d => int_total_seconds d
                   | None => 0
                   end ∧
         (∀ d, fv_ttl fv = Some d → Z.abs d < 2 ^ 34 * 1000000 →
               ttl ctx = Z.quot d 1000000) ∧
         event_timestamp_column ctx = bq_event_timestamp_column src ∧
         created_timestamp_column ctx = bq_created_timestamp_column src ∧
         table_subquery ctx = get_table_query_string src).
Proof.
  intros Hdict. unfold get_feature_view_query_context. rewrite Hdict.
  cbn [mbind result_bind]. split.
  - intros fv feats kind Hin Hsrc. by eapply query_context_loop_unsupported.
  - intros Hall.
    destruct (query_context_loop_ok items Hall []) as (ctxs & Hok & Hctxs).
    exists ctxs. split; [done|].
    split; [symmetry; by eapply Forall2_length|].
    intros i fv feats Hi.
    destruct (Forall2_lookup_l _ _ _ _ _ Hctxs Hi)
      as (ctx & Hctx & Hn & He & Hfe & Httl & src & Hsrc & Hec & Hcc & Hts).
    exists ctx, src. split; [done|]. split; [done|]. split; [done|].
    split; [done|]. split; [done|]. split; [done|].
    split; [|auto].
    intros d Hd Hsmall. cbn [fst] in Httl. rewrite Httl, Hd.
    by apply int_total_seconds_exact.
Qed.

(** X15. A view whose ttl is shorter than one second gets ttl 0 in its
    context, and with it a query text without the two TTL conditions: the
    view is treated as one that never expires. *)
Theorem subsecond_ttl_is_no_ttl (feature_refs : list string)
    (feature_views : list FeatureView) fv feats src (d : timedelta)
    (min_timestamp : datetime) :
  _get_requested_feature_views_to_features_dict feature_refs feature_views
    = Ok [(fv, feats)] →
  fv_input fv = SrcBigQuery src →
  fv_ttl fv = Some d →
  -1000000 < d < 1000000 →
  ∃ ctx,
    get_feature_view_query_context feature_refs feature_views = Ok [ctx] ∧
    ttl ctx = 0 ∧
    ttl_source_bound min_timestamp ctx = "" ∧
    ttl_validity_bound ctx = "".
Proof.
  intros Hdict Hsrc Httl Hd.
  unfold get_feature_view_query_context. rewrite Hdict.
  cbn [mbind result_bind query_context_loop app]. rewrite Hsrc, Httl.
  eexists. split; [reflexivity|].
  assert (Hq : int_total_seconds d = 0).
  { rewrite int_total_seconds_exact by lia.
    destruct (Z.le_gt_cases 0 d) as [Hnn|Hneg].
    - apply Z.quot_small. lia.
    - rewrite <- (Z.opp_involutive d), Z.quot_opp_l by lia.
      rewrite Z.quot_small by lia. done. }
  unfold ttl_source_bound, ttl_validity_bound. cbn [ttl]. by rewrite Hq.
Qed.

End ContextFacts.

Lemma query_context_per_view_witness :
  get_feature_view_query_context (Ext := sample_externals) ["rating"]
    [file_view]
  = Raise AssertionError.
Proof.
  apply (proj1 (query_context_per_view (Ext := sample_externals) ["rating"]
                  [file_view] [(file_view, ["rating"])] eq_refl)
           file_view ["rating"] "FileSource").
  - by left.
  - reflexivity.
Defined.

Lemma subsecond_ttl_is_no_ttl_witness :
  ∃ ctx,
    get_feature_view_query_context (Ext := sample_externals) ["rating"]
      [bigquery_view (Some 999999)] = Ok [ctx] ∧
    ttl ctx = 0 ∧
    ttl_source_bound (mk_datetime 100 None) ctx = "" ∧
    ttl_validity_bound ctx = "".
Proof.
  apply (subsecond_ttl_is_no_ttl (Ext := sample_externals) ["rating"]
           [bigquery_view (Some 999999)] (bigquery_view (Some 999999))
           ["rating"] sample_source 999999 (mk_datetime 100 None));
    try reflexivity.
  lia.
Defined.

(** ** Separators in the query text *)

Lemma jinja_for_snoc {A} (body : A → bool → string) (items : list A) (x : A) :
  jinja_for body (items ++ [x])
  = jinja_for (fun y _ => body y false) items +:+ body x true.
Proof.
  induction items as [|y rest IH]; cbn [jinja_for app].
  - by rewrite append_empty_r.
  - rewrite IH, append_assoc. by destruct rest.
Qed.

Section Separators.
Context `{Ext : Externals}.
Variables (min_timestamp max_timestamp : datetime).

(** X16. In the query text every view's block but the last is closed
    with a comma, the last one is not, and the same holds for the feature
    columns listed for a view in the final join: the lists of the text have
    separators only between their items. *)
Theorem query_blocks_are_comma_separated
    (init : list FeatureViewQueryContext) (featureview : FeatureViewQueryContext)
    (left_table_query_string : string)
    (first_features : list string) (last_feature : string) :
  features featureview = first_features ++ [last_feature] →
  build_point_in_time_query min_timestamp max_timestamp
    (init ++ [featureview]) left_table_query_string
  = "
WITH entity_dataframe AS (
    SELECT ROW_NUMBER() OVER() AS row_number, edf.* FROM "
    +:+ left_table_query_string +:+ " as edf
),
" +:+ jinja_for (fun v _ =>
                   featureview_block min_timestamp max_timestamp v false) init
    +:+ featureview_block min_timestamp max_timestamp featureview true
    +:+ "
/*
 Joins the outputs of multiple time travel joins to a single table.
 */
SELECT edf.event_timestamp as event_timestamp, * EXCEPT (row_number, event_timestamp) FROM entity_dataframe edf
" +:+ jinja_for (fun v _ => final_join v) (init ++ [featureview]) +:+ "
ORDER BY event_timestamp" ∧
  final_join featureview
  = "
LEFT JOIN (
    SELECT
    row_number,
    " +:+ jinja_for (fun feature _ => "
    " +:+ name featureview +:+ "__" +:+ feature +:+ ", " +:+ "
    ") first_features +:+ "
    " +:+ name featureview +:+ "__" +:+ last_feature +:+ "
    " +:+ "
    FROM " +:+ name featureview +:+ "__deduped
) USING (row_number)
".
Proof.
  intros Hfeatures. split.
  - unfold build_point_in_time_query. rewrite jinja_for_snoc.
    by rewrite !append_assoc.
  - unfold final_join. rewrite Hfeatures, jinja_for_snoc.
    unfold unless_last. rewrite !append_assoc.
    change ("" +:+ "
    ") with "
    ". done.
Qed.

End Separators.

Lemma query_blocks_are_comma_separated_witness :
  final_join (sample_context 0)
  = "
LEFT JOIN (
    SELECT
    row_number,
    
    driver_stats__rating, 
    
    driver_stats__trips
    
    FROM driver_stats__deduped
) USING (row_number)
".
Proof.
  etrans;
    [exact (proj2 (query_blocks_are_comma_separated (Ext := sample_externals)
                     (mk_datetime 100 None) (mk_datetime 200 None)
                     [] (sample_context 0) "(SELECT 1)" ["rating"] "trips"
                     eq_refl))
    |reflexivity].
Defined.

(** ** The query that pulls the latest rows *)

Section PullLatestFacts.
Context `{Ext : Externals}.


End PullLatestFacts.

(** ** Tearing down twice *)

(** X20. [teardown_infra] is idempotent: tearing the same tables down
    again changes nothing. *)
Theorem teardown_infra_idempotent (project : string) (tables : list string)
    (ds : datastore) :
  teardown_infra project tables (teardown_infra project tables ds)
  = teardown_infra project tables ds.
Proof.
  unfold teardown_infra.
  destruct (delete_tables_spec project tables (delete_tables project tables ds))
    as [Hr2 Ht2].
  destruct (delete_tables_spec project tables ds) as [Hr1 Ht1].
  destruct (delete_tables project tables (delete_tables project tables ds))
    as [t2 r2] eqn:E2.
  destruct (delete_tables project tables ds) as [t1 r1] eqn:E1.
  cbn [ds_rows ds_tables] in *. f_equal.
  - apply map_eq. intros [p t]. rewrite Ht2. case_decide as Hd; [|done].
    rewrite Ht1. by rewrite decide_True.
  - apply map_eq. intros k. rewrite Hr2. case_decide as Hd; [|done].
    rewrite Hr1. by rewrite decide_True.
Qed.

(** ** The table a historical query reads *)

Section HistoricalUpload.
Context `{Ext : Externals}.

(** X21. When the query context can be built, a retrieval with a query
    string sends nothing and reads the entities from that query in
    parentheses; a retrieval with a DataFrame sends the five upload
    requests and reads the entities from the very table it loaded the
    DataFrame into, which it has set to expire 30 minutes after the
    upload. In both cases the job is returned without being run. *)
Theorem historical_query_reads_entities env config_project
    (feature_views : list FeatureView) (feature_refs : list string) ctxs :
  get_feature_view_query_context feature_refs feature_views = Ok ctxs →
  (∀ sql, ∃ job,
     get_historical_features env config_project feature_views feature_refs
       (EntityDfStr sql) = ([], Ok job) ∧
     occurs_in ("FROM (" +:+ sql +:+ ") as edf") (job_query job)) ∧
  (∀ df, ∃ calls table_id job,
     get_historical_features env config_project feature_views feature_refs
       (EntityDfPandas df) = (calls, Ok job) ∧
     length calls = 5%nat ∧
     LoadTableFromDataframe table_id df ∈ calls ∧
     UpdateTable table_id (dt_add (utcnow env) (minutes 30)) ∈ calls ∧
     occurs_in ("FROM `" +:+ table_id +:+ "` as edf") (job_query job)).
Proof.
  intros Hctx. split.
  - intros sql. unfold get_historical_features. rewrite Hctx.
    cbn [mbind result_bind]. eexists. split; [reflexivity|].
    cbn [job_query]. unfold build_point_in_time_query.
    exists "
WITH entity_dataframe AS (
    SELECT ROW_NUMBER() OVER() AS row_number, edf.* ". eexists.
    rewrite !append_assoc. reflexivity.
  - intros df. unfold get_historical_features, _upload_entity_df_into_bigquery.
    rewrite Hctx. cbn [mbind result_bind]. do 3 eexists.
    split; [reflexivity|]. split; [done|].
    split; [right; left|]. split; [do 4 right; left|].
    cbn [job_query]. unfold build_point_in_time_query.
    exists "
WITH entity_dataframe AS (
    SELECT ROW_NUMBER() OVER() AS row_number, edf.* ". eexists.
    rewrite !append_assoc. reflexivity.
Qed.

End HistoricalUpload.

Lemma historical_query_reads_entities_witness :
  ∃ calls table_id job,
    get_historical_features (Ext := sample_externals) sample_env "feast"
      [bigquery_view None] ["rating"] (EntityDfPandas sample_df)
      = (calls, Ok job) ∧
    length calls = 5%nat ∧
    LoadTableFromDataframe table_id sample_df ∈ calls ∧
    UpdateTable table_id (dt_add (utcnow sample_env) (minutes 30)) ∈ calls ∧
    occurs_in ("FROM `" +:+ table_id +:+ "` as edf") (job_query job).
Proof.
  exact (proj2 (historical_query_reads_entities (Ext := sample_externals)
                  sample_env "feast" [bigquery_view None] ["rating"]
                  _ eq_refl) sample_df).
Defined.
